(** * The private blockchain of [src/blockchain.js]

    A shallow embedding of the [Blockchain] class: the chain array and its
    height counter, the append protocol of [_addBlock], the ownership flow of
    [requestMessageOwnershipVerification] / [submitStar], the three lookups
    and the whole-chain validation.

    Conventions of the embedding.
    - JavaScript numbers that the class handles are integers (array lengths,
      epoch times, parsed time fields); they are values of [Z], and [NaN] is
      [None] in an [option Z].
    - JavaScript strings are values of [string], read as the UTF-8 bytes of
      the text.
    - [null] and an unset field are [None] in an [option].
    - An [async] function runs synchronously up to its first [await]; what
      follows the [await] is a microtask.  The two scans that start one
      [async] callback per block ([validateChain], [getStarsByWalletAddress])
      are modelled with an explicit microtask queue; the arrays they fill
      ([errorLog], [stars]) live in the state the microtasks act on, so that
      a promise settled with such an array is settled with the array itself
      and not with a copy of its contents.
    - [_addBlock] is given three times.  As a function, it is one call run
      to its end with no other call in flight.  As activations that stop at
      each [await], it is any number of calls that overlap, resumed in any
      order; the function is the case of one activation ([run_alone]).  A
      block is the record of its field values; [_addBlock], which writes to
      the block it is handed and pushes that very object, is also given on a
      store of block objects, where the chain is an array of references. *)

From Stdlib Require Import ZArith List String Ascii Bool Lia DecimalString DecimalPos.
Import ListNotations.

Open Scope string_scope.
Open Scope list_scope.
Open Scope Z_scope.

(** ** JavaScript built-ins used by the class *)

Module JS.

(** [Number.prototype.toString] on an integer. *)
Definition toString (n : Z) : string :=
  NilZero.string_of_int (Z.to_int n).

(** [s.slice(0, -3)]: everything but the last three characters, the empty
    string when there are three or fewer. *)
Definition slice_0_m3 (s : string) : string :=
  substring 0 (String.length s - 3) s.

(** [s.split(c)] for a one-character separator: never empty. *)
Fixpoint split (c : ascii) (s : string) : list string :=
  match s with
  | EmptyString => [EmptyString]
  | String a rest =>
      if Ascii.eqb a c then EmptyString :: split c rest
      else match split c rest with
           | piece :: pieces => String a piece :: pieces
           | [] => [String a EmptyString]
           end
  end.

(** [arr[1]] as handed to a function that converts its argument to a
    string: a missing element is [undefined], which converts to
    ["undefined"]. *)
Definition index1_ToString (arr : list string) : string :=
  match nth_error arr 1 with
  | Some s => s
  | None => "undefined"
  end.

(** White space skipped by [parseInt]: the ASCII characters TAB, LF, VT,
    FF, CR and SP, and the UTF-8 encodings of U+00A0, U+1680,
    U+2000..U+200A, U+2028, U+2029, U+202F, U+205F, U+3000 and U+FEFF. *)
Definition ascii_space (a : ascii) : bool :=
  let n := nat_of_ascii a in
  (Nat.leb 9 n && Nat.leb n 13) || Nat.eqb n 32.

Fixpoint trimStart (fuel : nat) (s : string) : string :=
  match fuel with
  | O => s
  | S fuel' =>
      match s with
      | String a rest =>
          if ascii_space a then trimStart fuel' rest
          else
            match nat_of_ascii a, rest with
            | 194%nat, String b rest2 =>
                if Nat.eqb (nat_of_ascii b) 160 then trimStart fuel' rest2 else s
            | 225%nat, String b (String c rest3) =>
                if Nat.eqb (nat_of_ascii b) 154 && Nat.eqb (nat_of_ascii c) 128
                then trimStart fuel' rest3 else s
            | 226%nat, String b (String c rest3) =>
                let nb := nat_of_ascii b in
                let nc := nat_of_ascii c in
                if (Nat.eqb nb 128
                    && ((Nat.leb 128 nc && Nat.leb nc 138)
                        || Nat.eqb nc 168 || Nat.eqb nc 169 || Nat.eqb nc 175))
                   || (Nat.eqb nb 129 && Nat.eqb nc 159)
                then trimStart fuel' rest3 else s
            | 227%nat, String b (String c rest3) =>
                if Nat.eqb (nat_of_ascii b) 128 && Nat.eqb (nat_of_ascii c) 128
                then trimStart fuel' rest3 else s
            | 239%nat, String b (String c rest3) =>
                if Nat.eqb (nat_of_ascii b) 187 && Nat.eqb (nat_of_ascii c) 191
                then trimStart fuel' rest3 else s
            | _, _ => s
            end
      | EmptyString => s
      end
  end.

(** The value of a digit in the given radix (10 or 16), if it is one. *)
Definition digit_value (radix : Z) (a : ascii) : option Z :=
  let n := Z.of_nat (nat_of_ascii a) in
  let v :=
    if (48 <=? n) && (n <=? 57) then Some (n - 48)
    else if (97 <=? n) && (n <=? 102) then Some (n - 87)
    else if (65 <=? n) && (n <=? 70) then Some (n - 55)
    else None in
  match v with
  | Some d => if d <? radix then Some d else None
  | None => None
  end.

(** The longest prefix of digits, read left to right; [None] when the
    string does not start with a digit. *)
Fixpoint digits_prefix (radix : Z) (acc : option Z) (s : string) : option Z :=
  match s with
  | EmptyString => acc
  | String a rest =>
      match digit_value radix a with
      | Some d =>
          digits_prefix radix
            (Some (match acc with Some v => v * radix + d | None => d end)) rest
      | None => acc
      end
  end.

(** [parseInt(s)] with no radix argument: leading white space, an optional
    sign, an optional [0x] / [0X] that selects radix 16, then the longest
    run of digits.  [None] is [NaN].  (The result is exact; the engine
    rounds above 2^53.) *)
Definition parseInt (s : string) : option Z :=
  let s1 := trimStart (String.length s) s in
  let '(sign, s2) :=
    match s1 with
    | String "-" rest => (-1, rest)
    | String "+" rest => (1, rest)
    | _ => (1, s1)
    end in
  let '(radix, s3) :=
    match s2 with
    | String "0" (String "x" rest) => (16, rest)
    | String "0" (String "X" rest) => (16, rest)
    | _ => (10, s2)
    end in
  match digits_prefix radix None s3 with
  | Some v => Some (sign * v)
  | None => None
  end.

(** [a - b > c] on numbers that may be [NaN]: false as soon as one
    operand is [NaN]. *)
Definition diff_gt (a b : option Z) (c : Z) : bool :=
  match a, b with
  | Some x, Some y => x - y >? c
  | _, _ => false
  end.

End JS.

(** ** The digest of [crypto-js/sha256]

    [SHA256(text).toString()] is the lower-case hexadecimal form of the
    SHA-256 digest (FIPS 180-4) of the UTF-8 bytes of [text].  32-bit words
    are values of [Z] in [0, 2^32). *)

Module Sha256.

(** The low 32 bits of a non-negative number. *)
Definition w32 (x : Z) : Z := Z.land x 0xffffffff.

Definition rotr (n x : Z) : Z :=
  Z.lor (Z.shiftr x n) (w32 (Z.shiftl x (32 - n))).

Definition Ch (x y z : Z) : Z :=
  Z.lxor (Z.land x y) (Z.land (Z.lxor x 0xffffffff) z).

Definition Maj (x y z : Z) : Z :=
  Z.lxor (Z.lxor (Z.land x y) (Z.land x z)) (Z.land y z).

Definition Sigma0 (x : Z) : Z := Z.lxor (Z.lxor (rotr 2 x) (rotr 13 x)) (rotr 22 x).
Definition Sigma1 (x : Z) : Z := Z.lxor (Z.lxor (rotr 6 x) (rotr 11 x)) (rotr 25 x).
Definition sigma0 (x : Z) : Z := Z.lxor (Z.lxor (rotr 7 x) (rotr 18 x)) (Z.shiftr x 3).
Definition sigma1 (x : Z) : Z := Z.lxor (Z.lxor (rotr 17 x) (rotr 19 x)) (Z.shiftr x 10).

(** The first [n] primes, by trial division against the primes found so
    far. *)
Fixpoint primes_from (fuel : nat) (n : nat) (candidate : Z) (found : list Z) : list Z :=
  match fuel, n with
  | O, _ => rev found
  | _, O => rev found
  | Datatypes.S fuel', Datatypes.S n' =>
      if forallb (fun p => negb (candidate mod p =? 0)) found
      then primes_from fuel' n' (candidate + 1) (candidate :: found)
      else primes_from fuel' n (candidate + 1) found
  end.

Definition first_primes (n : nat) : list Z :=
  primes_from 400 n 2 [].

(** The integer cube root of a number below 2^(3 * bits), bit by bit. *)
Fixpoint cube_root (bits : nat) (x : Z) (acc : Z) : Z :=
  match bits with
  | O => acc
  | Datatypes.S bits' =>
      let try := acc + 2 ^ Z.of_nat bits' in
      cube_root bits' x (if try * try * try <=? x then try else acc)
  end.

(** FIPS 180-4, 4.2.2: the first 32 bits of the fractional parts of the
    cube roots of the first 64 primes. *)
Definition K : list Z :=
  Eval vm_compute in
    map (fun p => w32 (cube_root 35 (p * 2 ^ 96) 0)) (first_primes 64).

(** FIPS 180-4, 5.3.3: the first 32 bits of the fractional parts of the
    square roots of the first 8 primes. *)
Definition H0 : list Z :=
  Eval vm_compute in
    map (fun p => w32 (Z.sqrt (p * 2 ^ 64))) (first_primes 8).

Definition bytes_of (s : string) : list Z :=
  map (fun a => Z.of_nat (nat_of_ascii a)) (list_ascii_of_string s).

(** The length of the message in bits, as eight big-endian bytes. *)
Definition length_bytes (bits : Z) : list Z :=
  map (fun i => Z.land (Z.shiftr bits (8 * Z.of_nat i)) 255) [7; 6; 5; 4; 3; 2; 1; 0]%nat.

(** Padding: one byte [0x80], zero bytes up to 56 modulo 64, the length. *)
Definition pad (msg : list Z) : list Z :=
  let len := Z.of_nat (List.length msg) in
  let zeros := Z.to_nat ((55 - len) mod 64) in
  msg ++ [0x80] ++ repeat 0 zeros ++ length_bytes (8 * len).

(** Big-endian 32-bit words of a byte sequence whose length is a multiple
    of four. *)
Fixpoint words_of (bs : list Z) : list Z :=
  match bs with
  | b0 :: b1 :: b2 :: b3 :: rest =>
      (((b0 * 256 + b1) * 256 + b2) * 256 + b3) :: words_of rest
  | _ => []
  end.

(** The message schedule, most recent word first: [rev_w] holds
    W(t-1), W(t-2), ..., W(0). *)
Fixpoint extend (n : nat) (rev_w : list Z) : list Z :=
  match n with
  | O => rev_w
  | S n' =>
      let w := w32 (sigma1 (nth 1 rev_w 0) + nth 6 rev_w 0
                    + sigma0 (nth 14 rev_w 0) + nth 15 rev_w 0) in
      extend n' (w :: rev_w)
  end.

Definition schedule (block : list Z) : list Z :=
  rev (extend 48 (rev block)).

Definition round (v : list Z) (kw : Z * Z) : list Z :=
  match v with
  | [a; b; c; d; e; f; g; h] =>
      let t1 := h + Sigma1 e + Ch e f g + fst kw + snd kw in
      let t2 := Sigma0 a + Maj a b c in
      [w32 (t1 + t2); a; b; c; w32 (d + t1); e; f; g]
  | _ => v
  end.

Definition compress (hs : list Z) (block : list Z) : list Z :=
  let v := fold_left round (combine K (schedule block)) hs in
  map (fun xy => w32 (fst xy + snd xy)) (combine hs v).

(** One 16-word block at a time. *)
Fixpoint blocks (n : nat) (hs : list Z) (ws : list Z) : list Z :=
  match n with
  | O => hs
  | S n' =>
      match ws with
      | [] => hs
      | _ => blocks n' (compress hs (firstn 16 ws)) (skipn 16 ws)
      end
  end.

Definition hex_digit (n : Z) : ascii :=
  ascii_of_nat (Z.to_nat (if n <? 10 then 48 + n else 87 + n)).

Definition nibble (w : Z) (i : Z) : ascii :=
  hex_digit (Z.land (Z.shiftr w (4 * i)) 15).

Definition hex_word (w : Z) (rest : string) : string :=
  String (nibble w 7) (String (nibble w 6) (String (nibble w 5) (String (nibble w 4)
  (String (nibble w 3) (String (nibble w 2) (String (nibble w 1) (String (nibble w 0)
   rest))))))).

Definition hex_of_state (hs : list Z) : string :=
  hex_word (nth 0 hs 0) (hex_word (nth 1 hs 0) (hex_word (nth 2 hs 0) (hex_word (nth 3 hs 0)
  (hex_word (nth 4 hs 0) (hex_word (nth 5 hs 0) (hex_word (nth 6 hs 0) (hex_word (nth 7 hs 0)
   EmptyString))))))).

Definition digest (s : string) : string :=
  let ws := words_of (pad (bytes_of s)) in
  hex_of_state (blocks (List.length ws) H0 ws).

End Sha256.

(** ** Blocks

    [block.js] is not among the sources; [blockchain.js] reads and writes
    the fields [height], [time], [previousBlockHash] and [hash] of a block,
    and calls its methods [validate()] and [getBData()]. *)

Module Block.

Record t : Type := mk {
  hash : option string;              (* null until _addBlock finalizes the block *)
  height : Z;
  body : string;                     (* the encoded payload *)
  time : string;                     (* epoch seconds, as a decimal string *)
  previousBlockHash : option string  (* null for the genesis block *)
}.

Definition set_hash (v : option string) (b : t) : t :=
  mk v (height b) (body b) (time b) (previousBlockHash b).
Definition set_height (v : Z) (b : t) : t :=
  mk (hash b) v (body b) (time b) (previousBlockHash b).
Definition set_time (v : string) (b : t) : t :=
  mk (hash b) (height b) (body b) v (previousBlockHash b).
Definition set_previousBlockHash (v : option string) (b : t) : t :=
  mk (hash b) (height b) (body b) (time b) v.

End Block.

Abbreviation Block := Block.t.

(** The decoded payload of a block: the genesis marker
    [{ data: 'Genesis Block' }] or an ownership record
    [{ address, message, signature, star }]. *)
Inductive Payload : Type :=
| GenesisData (data : string)
| StarData (address message signature star : string).

(** How a promise ends: [Pending] is a promise that is never settled. *)
Inductive Promise (A E : Type) : Type :=
| Resolved (value : A)
| Rejected (reason : E)
| Pending.

Arguments Resolved {A E} value.
Arguments Rejected {A E} reason.
Arguments Pending {A E}.

(** [x === y] on values that are a string or [null]. *)
Definition strict_eq (x y : option string) : bool :=
  match x, y with
  | Some a, Some b => String.eqb a b
  | None, None => true
  | _, _ => false
  end.

(** A string or [null] inside a template literal. *)
Definition show (x : option string) : string :=
  match x with
  | Some a => a
  | None => "null"
  end.

(** What the class takes from outside: the libraries it requires and the
    encoding that [block.js] applies to a payload. *)
Class Externals : Type := {
  (** [SHA256(text).toString()] of [crypto-js]: a hexadecimal digest. *)
  SHA256 : string -> string;
  (** [JSON.stringify(block)] on a block object. *)
  JSON_stringify : Block -> string;
  (** The stored form of a payload, and its inverse where there is one. *)
  encode : Payload -> string;
  decode : string -> option Payload;
  (** [bitcoinMessage.verify(message, address, signature)]: [None] when the
      library throws on its input. *)
  bitcoinMessage_verify : string -> string -> string -> option bool
}.

(** ** Microtasks

    The state [S] is whatever the [async] functions of one call share. *)

Section Microtasks.

Context {S : Type}.

(** What an [async] function has left to do when it gives control back:
    nothing ([Return]: it ran to its end; [Throw]: it threw, which rejects
    a promise nobody looks at), or the code that follows an [await]. *)
#[warnings="-register-all"]
Inductive Task : Type :=
| Return : Task
| Throw (error : string) : Task
| Await (rest : S -> S * Task) : Task.

(** An entry of the microtask queue: the rest of a suspended function, or
    the continuation of the caller that awaits the promise of the whole
    call. *)
Inductive Job : Type :=
| Resume (rest : S -> S * Task) : Job
| Caller : Job.

(** An awaited promise that is already settled queues the continuation
    at once. *)
Definition suspended (t : Task) : list Job :=
  match t with
  | Await rest => [Resume rest]
  | _ => []
  end.

(** [arr.forEach(async x => ...)]: each call runs up to its first
    [await]; [forEach] does not wait for the promises the calls return. *)
Fixpoint forEach {A : Type} (callback : A -> S -> S * Task) (arr : list A) (st : S)
  : S * list Job :=
  match arr with
  | [] => (st, [])
  | x :: rest =>
      let '(st1, t) := callback x st in
      let '(st2, q) := forEach callback rest st1 in
      (st2, suspended t ++ q)
  end.

(** The microtask loop, first in first out; it stops in front of the
    caller's continuation, when the queue is empty, or when [fuel]
    microtasks have run. *)
Fixpoint runMicrotasks (fuel : nat) (queue : list Job) (st : S) : S * list Job :=
  match fuel with
  | O => (st, queue)
  | Datatypes.S fuel' =>
      match queue with
      | Resume rest :: queue' =>
          let '(st', t) := rest st in
          runMicrotasks fuel' (queue' ++ suspended t) st'
      | _ => (st, queue)
      end
  end.

End Microtasks.

Arguments Task S : clear implicits.
Arguments Job S : clear implicits.

(** ** The class [Blockchain] *)

(** The two fields of a [Blockchain] object.  The blocks of [chain] are
    the objects that [_addBlock] pushed, with the field values they have
    now. *)
Record Blockchain : Type := mkBlockchain {
  chain : list Block;
  height : Z
}.

Section BlockchainClass.

Context {ext : Externals}.

(** *** The methods of [Block] the class calls *)

(** Modelled from the spec: [block.js], which defines the constructor of
    [Block], is not among the sources.  Spec 4.1, [create(payload)]:
    "constructs a Block with height/timestamp/previousHash/hash unset;
    payload stored encoded".  [_addBlock] overwrites [height] and [time]
    before anything reads them. *)
Definition Block_new (data : Payload) : Block :=
  Block.mk None 0 (encode data) EmptyString None.

(** Modelled from the spec: [block.js], which defines [validate()], is not
    among the sources.  Spec 4.1: "recomputes the content hash from current
    field values and compares to the stored hash; returns false on
    mismatch", the content hash being the digest "of the deterministic
    serialization of all fields except hash itself": the serialization of
    the block with its [hash] field unset. *)
Definition Block_contentHash (block : Block) : string :=
  SHA256 (JSON_stringify (Block.set_hash None block)).

Definition Block_validate (block : Block) : bool :=
  strict_eq (Block.hash block) (Some (Block_contentHash block)).

(** Modelled from the spec: [block.js], which defines [getBData()], is not
    among the sources.  Spec 4.1, [decodePayload()]: "decodes the stored
    payload back to structured form; fails with a DecodeError if the stored
    bytes are not validly encoded".  [None] is the rejected promise. *)
Definition Block_getBData (block : Block) : option Payload :=
  decode (Block.body block).

(** *** Lookups *)

(** [getChainHeight()] resolves with [this.height]. *)
Definition getChainHeight (self : Blockchain) : Z :=
  height self.

(** [getBlockByHash(hash)]: [self.chain.find(block => block.hash === hash)],
    [null] when there is none. *)
Definition getBlockByHash (self : Blockchain) (hash : option string) : option Block :=
  find (fun block => strict_eq (Block.hash block) hash) (chain self).

(** [getBlockByHeight(height)]:
    [self.chain.filter(p => p.height === height)[0]], [null] when there is
    none. *)
Definition getBlockByHeight (self : Blockchain) (height : Z) : option Block :=
  hd_error (filter (fun p => Block.height p =? height) (chain self)).

(** *** [validateChain()] *)

(** What the callbacks of one call of [validateChain] share: the object
    and the three variables declared outside the callback. *)
Record VCState : Type := mkVC {
  vc_self : Blockchain;
  errorLog : list string;
  isValid : bool;
  prevBlock : option Block
}.

Definition set_isValid (v : bool) (st : VCState) : VCState :=
  mkVC (vc_self st) (errorLog st) v (prevBlock st).
Definition set_prevBlock (v : option Block) (st : VCState) : VCState :=
  mkVC (vc_self st) (errorLog st) (isValid st) v.
Definition errorLog_push (msg : string) (st : VCState) : VCState :=
  mkVC (vc_self st) (errorLog st ++ [msg]) (isValid st) (prevBlock st).

Definition invalid_block_msg (block : Block) : string :=
  ("Invalid block " ++ show (Block.hash block))%string.

Definition invalid_previous_msg (block : Block) : string :=
  ("Invalid previous block at " ++ show (Block.hash block)
   ++ " with prev hash " ++ show (Block.previousBlockHash block))%string.

(** Lines 240-244, after [await self.getBlockByHash(...)] gave [found]:
    reading [prevBlock.hash] throws a TypeError when [prevBlock] is
    [null]. *)
Definition validateChain_after_lookup (block : Block) (found : option Block)
  : VCState -> VCState * Task VCState :=
  fun st =>
    let st := set_prevBlock found st in
    match prevBlock st with
    | None => (st, Throw "TypeError: Cannot read property 'hash' of null")
    | Some prev =>
        if negb (strict_eq (Block.hash prev) (Block.hash block))
        then (errorLog_push (invalid_previous_msg block) st, Return)
        else (st, Return)
    end.

(** Lines 234-240, after [await block.validate()] gave [valid]. *)
Definition validateChain_after_validate (block : Block) (valid : bool)
  : VCState -> VCState * Task VCState :=
  fun st =>
    let st := set_isValid valid st in
    if negb (isValid st)
    then (errorLog_push (invalid_block_msg block) st, Return)
    else
      let found := getBlockByHash (vc_self st) (Block.previousBlockHash block) in
      (st, Await (validateChain_after_lookup block found)).

(** The callback of line 229, up to its first [await]. *)
Definition validateChain_callback (block : Block) : VCState -> VCState * Task VCState :=
  fun st =>
    if Block.height block <=? 0
    then (st, Return)                                   (* genesis block *)
    else
      let valid := Block_validate block in
      (st, Await (validateChain_after_validate block valid)).

(** The array a promise of [validateChain] is rejected with: [errorLog]
    itself, whose contents are those of the state. *)
Inductive ErrorLogArray : Type := the_errorLog.

(** [validateChain()], lines 224-253: the state and the microtask queue
    when the executor returns, and how the promise was settled. *)
Definition validateChain (self : Blockchain)
  : VCState * list (Job VCState) * Promise bool ErrorLogArray :=
  let st := mkVC self [] false None in
  let '(st, queue) := forEach validateChain_callback (chain self) st in
  if (0 <? Z.of_nat (List.length (errorLog st)))
  then (st, queue, Rejected the_errorLog)
  else (st, queue, Resolved true).

(** How the promise of [validateChain()] is settled. *)
Definition validateChain_settled (self : Blockchain) : Promise bool ErrorLogArray :=
  snd (validateChain self).

(** The state once the callbacks ran to their end: no callback awaits
    more than twice. *)
Definition validateChain_final (self : Blockchain) : VCState * list (Job VCState) :=
  let '(st, queue, _) := validateChain self in
  runMicrotasks (2 * List.length (chain self)) queue st.

(** The contents of [errorLog] once the callbacks ran to their end. *)
Definition validateChain_errorLog (self : Blockchain) : list string :=
  errorLog (fst (validateChain_final self)).

(** *** [_addBlock(block)] *)

(** [new Date().getTime().toString().slice(0,-3)] when the clock reads
    [now] milliseconds. *)
Definition seconds_string (now : Z) : string :=
  JS.slice_0_m3 (JS.toString now).

(** [_addBlock(block)], lines 64-99, run to its end with the clock at
    [now]: the object afterwards, the block as the method left it, and how
    the promise ends.  [block] is an object that is not in [self.chain]
    (both callers pass the result of [new BlockClass.Block(...)]);
    [_addBlock_object] below is the same method on an object that may be.
    Each [await] resumes with the value of its promise; the callbacks that
    [validateChain()] leaves on the microtask queue write to nothing but
    their own [errorLog]. *)
Definition _addBlock (now : Z) (block : Block) (self : Blockchain)
  : Blockchain * Block * Promise Block string :=
  let block := Block.set_height (Z.of_nat (List.length (chain self))) block in
  let block := Block.set_time (seconds_string now) block in
  let block :=
    if getChainHeight self >? 0 then
      match getBlockByHeight self (Block.height block - 1) with
      | Some prevBlock =>
          (* ['hash' in prevBlock] holds of every block object *)
          Block.set_previousBlockHash (Block.hash prevBlock) block
      | None => block
      end
    else block in
  let block := Block.set_hash (Some (SHA256 (JSON_stringify block))) block in
  let isBlockValid := Block_validate block in
  if negb isBlockValid
  then (self, block, Rejected ("Block is invalid " ++ show (Block.hash block))%string)
  else
    let chain' := chain self ++ [block] in
    let self := mkBlockchain chain' (Z.of_nat (List.length chain')) in
    match validateChain_settled self with
    | Resolved isValidChain =>
        if negb isValidChain
        then (self, block,
              Rejected ("Chain is invalid after adding block "
                        ++ show (Block.hash block))%string)
        else (self, block, Resolved block)
    | _ =>
        (* the [await] throws inside the async executor: neither
           [resolve] nor [reject] is called *)
        (self, block, Pending)
    end.

(** [initializeChain()], lines 36-41. *)
Definition initializeChain (now : Z) (self : Blockchain) : Blockchain :=
  if height self =? -1
  then fst (fst (_addBlock now (Block_new (GenesisData "Genesis Block")) self))
  else self.

(** The constructor, lines 25-29, and the object once the
    [initializeChain()] it started has run to its end. *)
Definition Blockchain_constructor : Blockchain :=
  mkBlockchain [] (-1).

Definition Blockchain_new (now : Z) : Blockchain :=
  initializeChain now Blockchain_constructor.

(** *** The ownership flow *)

(** [requestMessageOwnershipVerification(address)], lines 109-117. *)
Definition requestMessageOwnershipVerification (now : Z) (address : string) : string :=
  (address ++ ":" ++ seconds_string now ++ ":" ++ "starRegistry")%string.

(** [submitStar(address, message, signature, star)], lines 136-157; the
    clock reads [now] at line 140 and [now'] inside [_addBlock]. *)
Definition submitStar (now now' : Z) (address message signature star : string)
  (self : Blockchain) : Blockchain * Promise Block string :=
  let time := JS.parseInt (JS.index1_ToString (JS.split ":" message)) in
  let curTime := JS.parseInt (seconds_string now) in
  let timeDiff5mins := 5 * 60 * 1000 in
  if JS.diff_gt curTime time timeDiff5mins
  then (self, Rejected "More than 5 minutes have elapsed")
  else
    match bitcoinMessage_verify message address signature with
    | None => (self, Pending)   (* thrown inside the async executor *)
    | Some false => (self, Rejected "Failed to verify message")
    | Some true =>
        let block := Block_new (StarData address message signature star) in
        let '(self', block', added) := _addBlock now' block self in
        match added with
        | Resolved _ => (self', Resolved block')
        | _ => (self', Pending)  (* the [await] throws or never resumes *)
        end
    end.

(** *** [getStarsByWalletAddress(address)] *)

(** What the callbacks of one call share: the object, the array [stars]
    and the variable [body]. *)
Record GSState : Type := mkGS {
  gs_self : Blockchain;
  stars : list string;
  body : option Payload
}.

(** Lines 207-211, after [await block.getBData()]: the [await] throws
    when the promise was rejected. *)
Definition getStars_after_getBData (address : string) (data : option Payload)
  : GSState -> GSState * Task GSState :=
  fun st =>
    match data with
    | None => (st, Throw "DecodeError")
    | Some payload =>
        let st := mkGS (gs_self st) (stars st) (Some payload) in
        match body st with
        | Some (StarData owner _ _ star) =>
            if String.eqb owner address
            then (mkGS (gs_self st) (stars st ++ [star]) (body st), Return)
            else (st, Return)
        | _ => (st, Return)    (* [body.address] is undefined *)
        end
    end.

Definition getStars_callback (address : string) (block : Block)
  : GSState -> GSState * Task GSState :=
  fun st => (st, Await (getStars_after_getBData address (Block_getBData block))).

(** The array a promise of [getStarsByWalletAddress] is resolved with:
    [stars] itself, whose contents are those of the state. *)
Inductive StarsArray : Type := the_stars.

(** [getStarsByWalletAddress(address)], lines 201-216: the state and the
    microtask queue when the executor returns, and how the promise was
    settled. *)
Definition getStarsByWalletAddress (self : Blockchain) (address : string)
  : GSState * list (Job GSState) * Promise StarsArray string :=
  let st := mkGS self [] None in
  let '(st, queue) := forEach (getStars_callback address) (chain self) st in
  (st, queue, Resolved the_stars).

(** The contents of [stars] at the moment the promise is resolved. *)
Definition stars_when_resolved (self : Blockchain) (address : string) : list string :=
  stars (fst (fst (getStarsByWalletAddress self address))).

(** [await self.getStarsByWalletAddress(address)]: the caller's
    continuation is queued when the promise, already resolved, is awaited,
    hence behind the callbacks; it reads the array it was given. *)
Definition await_getStarsByWalletAddress (self : Blockchain) (address : string)
  : option (list string) :=
  let '(st, queue, _) := getStarsByWalletAddress self address in
  match runMicrotasks (Datatypes.S (List.length queue)) (queue ++ [Caller]) st with
  | (st', Caller :: _) => Some (stars st')
  | _ => None
  end.

End BlockchainClass.

(** ** Notions the facts are stated with *)

Section Notions.

Context {ext : Externals}.

(** The block before its hash is set: the three linkage fields are
    assigned. *)
Definition linked (now : Z) (block : Block) (self : Blockchain) : Block :=
  let block := Block.set_height (Z.of_nat (List.length (chain self))) block in
  let block := Block.set_time (seconds_string now) block in
  if getChainHeight self >? 0 then
    match getBlockByHeight self (Block.height block - 1) with
    | Some prevBlock => Block.set_previousBlockHash (Block.hash prevBlock) block
    | None => block
    end
  else block.

(** The block as [_addBlock] leaves it, pushed or not. *)
Definition finalized (now : Z) (block : Block) (self : Blockchain) : Block :=
  snd (fst (_addBlock now block self)).

(** The objects that exist when calls do not overlap: once the
    constructor's [initializeChain()] has run to its end, and after any
    number of calls of [_addBlock] whose promise was resolved, each run to
    its end before the next is made.  The class does not enforce this;
    [reachable] below is without the restriction. *)
Inductive serial : Blockchain -> Prop :=
| serial_new (now : Z) : serial (Blockchain_new now)
| serial_addBlock (self : Blockchain) (now : Z) (block : Block)
    (self' : Blockchain) (block' added : Block) :
    serial self ->
    _addBlock now block self = (self', block', Resolved added) ->
    serial self'.

(** The block stored at position [i] has height [i]. *)
Definition heights_are_indices (blocks : list Block) : Prop :=
  forall (i : nat) (block : Block),
    nth_error blocks i = Some block -> Block.height block = Z.of_nat i.

(** The blocks whose callback goes past its first line. *)
Definition examined (blocks : list Block) : list Block :=
  filter (fun block => negb (Block.height block <=? 0)) blocks.

(** What [getBlockByHash(block.previousBlockHash)] finds has a hash other
    than that of [block] itself. *)
Definition found_differs (self : Blockchain) (block : Block) : bool :=
  match getBlockByHash self (Block.previousBlockHash block) with
  | Some prev => negb (strict_eq (Block.hash prev) (Block.hash block))
  | None => false
  end.

(** What one block contributes to [stars]. *)
Definition star_if_owned (address : string) (block : Block) : list string :=
  match Block_getBData block with
  | Some (StarData owner _ _ star) =>
      if String.eqb owner address then [star] else []
  | _ => []
  end.

(** Spec 4.3, [getStarsByAddress], in the spec's words: "decodes every
    non-genesis block's payload, filters by address, collects star fields
    in chain order"; "blocks whose payload fails to decode are skipped".
    The genesis block is the one at height 0 (spec 3). *)
Definition spec_getStarsByAddress (address : string) (blocks : list Block)
  : list string :=
  flat_map (star_if_owned address)
    (filter (fun block => negb (Block.height block =? 0)) blocks).

(** The time field of a message, as line 139 reads it. *)
Definition message_time (message : string) : option Z :=
  JS.parseInt (JS.index1_ToString (JS.split ":" message)).

(** The clock in seconds, as line 140 reads it. *)
Definition current_time (now : Z) : option Z :=
  JS.parseInt (seconds_string now).

(** What [submitStar] does once the time check has let the message
    through (lines 148-155). *)
Definition verify_and_add (now' : Z) (address message signature star : string)
  (self : Blockchain) : Blockchain * Promise Block string :=
  match bitcoinMessage_verify message address signature with
  | None => (self, Pending)
  | Some false => (self, Rejected "Failed to verify message")
  | Some true =>
      let block' :=
        finalized now' (Block_new (StarData address message signature star)) self in
      (mkBlockchain (chain self ++ [block'])
         (Z.of_nat (List.length (chain self ++ [block']))),
       Resolved block')
  end.

End Notions.

(** ** Calls of [_addBlock] that overlap

    [_addBlock] reads [chain.length] and [this.height] at lines 69 and 73
    and pushes at line 88, four [await]s later, and the constructor does
    not wait for [initializeChain()]: a call made while another is
    suspended runs in between.  Here a call is an activation that stops at
    each [await]; the object and the activations in flight make a world, in
    which any activation may be the next to resume.  The microtask queue of
    an engine resumes them in one of these orders. *)

Section Overlap.

Context {ext : Externals}.

(** A call of [_addBlock] suspended at an [await]: the block as it is
    then, and the value its promise was settled with when the awaited
    method was called. *)
Inductive Activation : Type :=
| AtGetChainHeight (block : Block) (h : Z)                        (* line 73 *)
| AtGetBlockByHeight (block : Block) (prevBlock : option Block)   (* line 74 *)
| AtValidate (block : Block) (isBlockValid : bool)                (* line 82 *)
| AtValidateChain (block : Block) (isValidChain : Promise bool ErrorLogArray). (* line 91 *)

(** Lines 69-73, the part of the call that runs before it returns its
    promise. *)
Definition _addBlock_start (now : Z) (block : Block) (self : Blockchain) : Activation :=
  let block := Block.set_height (Z.of_nat (List.length (chain self))) block in
  let block := Block.set_time (seconds_string now) block in
  AtGetChainHeight block (getChainHeight self).

(** Lines 81-82. *)
Definition _addBlock_hash (block : Block) : Activation :=
  let block := Block.set_hash (Some (SHA256 (JSON_stringify block))) block in
  AtValidate block (Block_validate block).

(** From one [await] to the next, or to the end of the call: the object
    afterwards, and the activation at its next [await] or the way the
    promise ends. *)
Definition _addBlock_resume (a : Activation) (self : Blockchain)
  : Blockchain * (Activation + Promise Block string) :=
  match a with
  | AtGetChainHeight block h =>
      if h >? 0
      then (self, inl (AtGetBlockByHeight block
                         (getBlockByHeight self (Block.height block - 1))))
      else (self, inl (_addBlock_hash block))
  | AtGetBlockByHeight block prevBlock =>
      let block :=
        match prevBlock with
        | Some prevBlock => Block.set_previousBlockHash (Block.hash prevBlock) block
        | None => block
        end in
      (self, inl (_addBlock_hash block))
  | AtValidate block isBlockValid =>
      if negb isBlockValid
      then (self, inr (Rejected ("Block is invalid " ++ show (Block.hash block))%string))
      else
        let chain' := chain self ++ [block] in
        let self := mkBlockchain chain' (Z.of_nat (List.length chain')) in
        (self, inl (AtValidateChain block (validateChain_settled self)))
  | AtValidateChain block isValidChain =>
      match isValidChain with
      | Resolved isValidChain =>
          if negb isValidChain
          then (self, inr (Rejected ("Chain is invalid after adding block "
                                     ++ show (Block.hash block))%string))
          else (self, inr (Resolved block))
      | _ => (self, inr Pending)
      end
  end.

(** The object, the calls of [_addBlock] in flight, and the promises of
    the calls that ended, in the order they ended. *)
Record World : Type := mkWorld {
  object : Blockchain;
  inflight : list Activation;
  outcomes : list (Promise Block string)
}.

(** [_addBlock(block)] is called. *)
Definition call (now : Z) (block : Block) (w : World) : World :=
  mkWorld (object w) (inflight w ++ [_addBlock_start now block (object w)]) (outcomes w).

(** The activation at position [i] resumes. *)
Definition resume (i : nat) (w : World) : World :=
  match nth_error (inflight w) i with
  | None => w
  | Some a =>
      match _addBlock_resume a (object w) with
      | (self, inl a') =>
          mkWorld self (firstn i (inflight w) ++ a' :: skipn (Datatypes.S i) (inflight w))
            (outcomes w)
      | (self, inr promise) =>
          mkWorld self (firstn i (inflight w) ++ skipn (Datatypes.S i) (inflight w))
            (outcomes w ++ [promise])
      end
  end.

(** [initializeChain()], lines 36-41, up to its [await]. *)
Definition initializeChain_start (now : Z) (w : World) : World :=
  if height (object w) =? -1
  then call now (Block_new (GenesisData "Genesis Block")) w
  else w.

(** [new Blockchain()] has returned: the genesis block is on its way. *)
Definition World_new (now : Z) : World :=
  initializeChain_start now (mkWorld Blockchain_constructor [] []).

(** [submitStar], lines 136-153, up to its [await]: [_addBlock] is called
    when the two tests let the submission through. *)
Definition submitStar_start (now now' : Z) (address message signature star : string)
  (w : World) : World :=
  if JS.diff_gt (current_time now) (message_time message) (5 * 60 * 1000)
  then w
  else
    match bitcoinMessage_verify message address signature with
    | Some true => call now' (Block_new (StarData address message signature star)) w
    | _ => w
    end.

(** The worlds the class gets into: construction, then calls of
    [_addBlock] at any moment and resumptions in any order. *)
Inductive built : World -> Prop :=
| built_new (now : Z) : built (World_new now)
| built_call (w : World) (now : Z) (block : Block) :
    built w -> built (call now block w)
| built_resume (w : World) (i : nat) :
    built w -> built (resume i w).

(** The objects that hold at least one block, at any moment of such a
    history, whether calls are in flight or not. *)
Definition reachable (self : Blockchain) : Prop :=
  chain self <> [] /\ exists w : World, built w /\ object w = self.

End Overlap.

Section OverlapNotions.

Context {ext : Externals}.

(** The block an activation holds. *)
Definition block_of (a : Activation) : Block :=
  match a with
  | AtGetChainHeight block _ => block
  | AtGetBlockByHeight block _ => block
  | AtValidate block _ => block
  | AtValidateChain block _ => block
  end.

(** What holds of a call in flight: its block took its height from a chain
    that was no longer than the chain is now, and the verdict it waits for
    is that of [validate()] on the block. *)
Definition activation_ok (self : Blockchain) (a : Activation) : Prop :=
  Block.height (block_of a) <= Z.of_nat (List.length (chain self))
  /\ match a with
     | AtValidate block isBlockValid => isBlockValid = Block_validate block
     | _ => True
     end.

(** What holds of every world the class gets into. *)
Definition world_ok (w : World) : Prop :=
  height (object w)
  = match chain (object w) with
    | [] => -1
    | _ :: _ => Z.of_nat (List.length (chain (object w)))
    end
  /\ (forall (i : nat) (block : Block),
        nth_error (chain (object w)) i = Some block ->
        Block.height block <= Z.of_nat i)
  /\ (forall block : Block,
        In block (chain (object w)) -> Block_validate block = true)
  /\ Forall (activation_ok (object w)) (inflight w).

End OverlapNotions.

(** Whether a promise ended resolved. *)
Definition is_resolved {A E : Type} (promise : Promise A E) : bool :=
  match promise with
  | Resolved _ => true
  | _ => false
  end.

(** ** Block objects

    [_addBlock] writes to the object it is handed, and what it pushes onto
    [this.chain] is that object.  Here the objects are cells of a store and
    the chain is an array of references, so that the block handed over may or
    may not be an element of the chain already. *)

Section Objects.

Context {ext : Externals}.

Record Store : Type := mkStore {
  objects : list Block;      (* the Block objects, by order of creation *)
  chain_refs : list nat;     (* this.chain *)
  height_field : Z           (* this.height *)
}.

(** The object behind a reference. *)
Definition deref (st : Store) (r : nat) : Block :=
  nth r (objects st) (Block.mk None 0 EmptyString EmptyString None).

Fixpoint update_nth (r : nat) (f : Block -> Block) (l : list Block) : list Block :=
  match l, r with
  | [], _ => []
  | b :: rest, O => f b :: rest
  | b :: rest, Datatypes.S r' => b :: update_nth r' f rest
  end.

(** An assignment to a field of the object behind [r]. *)
Definition write (r : nat) (f : Block -> Block) (st : Store) : Store :=
  mkStore (update_nth r f (objects st)) (chain_refs st) (height_field st).

(** The [Blockchain] object with the blocks of the chain as they are now. *)
Definition view (st : Store) : Blockchain :=
  mkBlockchain (map (deref st) (chain_refs st)) (height_field st).

(** [_addBlock(block)], lines 64-99, on the object behind [r]: every
    assignment to [block] is a write to the store, and every block the
    lookups read is read from the store as it is then. *)
Definition _addBlock_object (now : Z) (r : nat) (st : Store) : Store * Promise nat string :=
  let st := write r (Block.set_height (Z.of_nat (List.length (chain_refs st)))) st in
  let st := write r (Block.set_time (seconds_string now)) st in
  let st :=
    if getChainHeight (view st) >? 0 then
      match getBlockByHeight (view st) (Block.height (deref st r) - 1) with
      | Some prevBlock => write r (Block.set_previousBlockHash (Block.hash prevBlock)) st
      | None => st
      end
    else st in
  let st := write r (Block.set_hash (Some (SHA256 (JSON_stringify (deref st r))))) st in
  let isBlockValid := Block_validate (deref st r) in
  if negb isBlockValid
  then (st, Rejected ("Block is invalid " ++ show (Block.hash (deref st r)))%string)
  else
    let chain' := chain_refs st ++ [r] in
    let st := mkStore (objects st) chain' (Z.of_nat (List.length chain')) in
    match validateChain_settled (view st) with
    | Resolved isValidChain =>
        if negb isValidChain
        then (st, Rejected ("Chain is invalid after adding block "
                            ++ show (Block.hash (deref st r)))%string)
        else (st, Resolved r)
    | _ => (st, Pending)
    end.

(** The store after lines 69-81: the four fields of the object behind [r]
    are assigned. *)
Definition finalize_object (now : Z) (r : nat) (st : Store) : Store :=
  let st := write r (Block.set_height (Z.of_nat (List.length (chain_refs st)))) st in
  let st := write r (Block.set_time (seconds_string now)) st in
  let st :=
    if getChainHeight (view st) >? 0 then
      match getBlockByHeight (view st) (Block.height (deref st r) - 1) with
      | Some prevBlock => write r (Block.set_previousBlockHash (Block.hash prevBlock)) st
      | None => st
      end
    else st in
  write r (Block.set_hash (Some (SHA256 (JSON_stringify (deref st r))))) st.

End Objects.

(** ** A concrete instance

    The digest is SHA-256 itself.  The serialization of a block, the
    encoding of a payload and the signature check stand in for
    [JSON.stringify] on the fields of [block.js], for the encoding of
    [block.js] and for [bitcoinjs-message]; they serve to run the class on
    concrete chains. *)

Module Sample.

Definition hex_byte (a : ascii) (rest : string) : string :=
  let n := Z.of_nat (nat_of_ascii a) in
  String (Sha256.hex_digit (n / 16)) (String (Sha256.hex_digit (n mod 16)) rest).

Fixpoint hex (s : string) : string :=
  match s with
  | EmptyString => EmptyString
  | String a rest => hex_byte a (hex rest)
  end.

Fixpoint unhex (s : string) : option string :=
  match s with
  | EmptyString => Some EmptyString
  | String a (String b rest) =>
      match JS.digit_value 16 a, JS.digit_value 16 b, unhex rest with
      | Some x, Some y, Some r => Some (String (ascii_of_nat (Z.to_nat (16 * x + y))) r)
      | _, _, _ => None
      end
  | String _ EmptyString => None
  end.

(** The payload, field by field in hexadecimal, behind a tag. *)
Definition encode_payload (p : Payload) : string :=
  match p with
  | GenesisData d => ("G-" ++ hex d)%string
  | StarData a m s st =>
      ("S-" ++ hex a ++ "-" ++ hex m ++ "-" ++ hex s ++ "-" ++ hex st)%string
  end.

Definition decode_payload (s : string) : option Payload :=
  match JS.split "-" s with
  | ["G"; d] =>
      match unhex d with
      | Some d' => Some (GenesisData d')
      | None => None
      end
  | ["S"; a; m; sg; st] =>
      match unhex a, unhex m, unhex sg, unhex st with
      | Some a', Some m', Some sg', Some st' => Some (StarData a' m' sg' st')
      | _, _, _, _ => None
      end
  | _ => None
  end.

(** A string literal of JSON; the fields of a block hold no control
    character. *)
Definition dquote : ascii := ascii_of_nat 34.

Fixpoint json_escape (s : string) : string :=
  match s with
  | EmptyString => EmptyString
  | String a rest =>
      if Ascii.eqb a dquote || Ascii.eqb a "\"
      then String "\" (String a (json_escape rest))
      else String a (json_escape rest)
  end.

Definition json_string (s : string) : string :=
  (String dquote (json_escape s) ++ String dquote EmptyString)%string.

Definition json_nullable (x : option string) : string :=
  match x with
  | Some s => json_string s
  | None => "null"
  end.

Definition stringify_block (b : Block) : string :=
  ("{" ++ json_string "hash" ++ ":" ++ json_nullable (Block.hash b)
   ++ "," ++ json_string "height" ++ ":" ++ JS.toString (Block.height b)
   ++ "," ++ json_string "body" ++ ":" ++ json_string (Block.body b)
   ++ "," ++ json_string "time" ++ ":" ++ json_string (Block.time b)
   ++ "," ++ json_string "previousBlockHash" ++ ":"
   ++ json_nullable (Block.previousBlockHash b) ++ "}")%string.

(** The signature that the stand-in check accepts for a message and an
    address; the check throws on an empty signature. *)
Definition sign (message address : string) : string :=
  Sha256.digest (address ++ "/" ++ message)%string.

Definition verify (message address signature : string) : option bool :=
  match signature with
  | EmptyString => None
  | _ => Some (String.eqb signature (sign message address))
  end.

Definition externals : Externals := {|
  SHA256 := Sha256.digest;
  JSON_stringify := stringify_block;
  encode := encode_payload;
  decode := decode_payload;
  bitcoinMessage_verify := verify
|}.

End Sample.

(** ** Sample chains *)

Module Examples.

#[local] Existing Instance Sample.externals.

(** The clock, in milliseconds, when the chain is created. *)
Definition t0 : Z := 1600000000000.

Definition genesis_only : Blockchain := Blockchain_new t0.

(** The challenge issued to [address] at [t0], and its submission at
    [now] with the signature the stand-in check accepts. *)
Definition challenge (address : string) : string :=
  requestMessageOwnershipVerification t0 address.

Definition submit (now : Z) (address star : string) (self : Blockchain)
  : Blockchain * Promise Block string :=
  submitStar now now address (challenge address)
    (Sample.sign (challenge address) address) star self.

Definition one_star : Blockchain :=
  fst (submit (t0 + 60000) "X" "star 1" genesis_only).

Definition two_stars : Blockchain :=
  fst (submit (t0 + 61000) "Y" "star 2" one_star).

Definition three_stars : Blockchain :=
  fst (submit (t0 + 62000) "X" "star 3" two_stars).

(** A stored block after somebody has rewritten its payload. *)
Definition tamper (block : Block) : Block :=
  Block.mk (Block.hash block) (Block.height block)
    (encode (StarData "Z" "forged" "forged" "star 0"))
    (Block.time block) (Block.previousBlockHash block).

(** [two_stars] with its last block rewritten. *)
Definition tampered : Blockchain :=
  mkBlockchain
    (firstn 2 (chain two_stars) ++ map tamper (skipn 2 (chain two_stars)))
    (height two_stars).

(** A stored block given another predecessor hash, with its own hash
    recomputed to match. *)
Definition relink (block : Block) : Block :=
  let block := Block.set_previousBlockHash (Some "00") block in
  Block.set_hash (Some (Block_contentHash block)) block.

(** [one_star] with its last block relinked. *)
Definition unlinked : Blockchain :=
  mkBlockchain
    (firstn 1 (chain one_star) ++ map relink (skipn 1 (chain one_star)))
    (height one_star).

(** The block of the first star, as [submitStar] builds it. *)
Definition first_star_block : Block :=
  Block_new (StarData "X" (challenge "X") (Sample.sign (challenge "X") "X") "star 1").

(** The objects of [genesis_only]: one block, which the chain refers
    to. *)
Definition genesis_store : Store :=
  mkStore (chain genesis_only) [0%nat] (height genesis_only).

(** A block that already carries a hash when it is handed to
    [_addBlock]. *)
Definition stale_block : Block :=
  Block.set_hash (Some "00") (Block_new (StarData "X" "m" "s" "star")).

(** The objects of [genesis_only] and that block, which the chain does not
    refer to. *)
Definition stale_store : Store :=
  mkStore (chain genesis_only ++ [stale_block]) [0%nat] (height genesis_only).

(** The first star's block as [_addBlock] stores it on [genesis_only], and
    the chain it is then the last block of. *)
Definition first_star_stored : Block :=
  finalized (t0 + 60000) first_star_block genesis_only.

Definition first_star_chain : Blockchain :=
  mkBlockchain (chain genesis_only ++ [first_star_stored]) 2.

(** The world once construction has run to its end. *)
Definition constructed : World :=
  resume 0 (resume 0 (resume 0 (World_new t0))).

(** Two submissions in the same tick, a minute after construction: both
    calls of [_addBlock] start before either resumes. *)
Definition two_submitted : World :=
  submitStar_start (t0 + 60000) (t0 + 60000) "Y" (challenge "Y")
    (Sample.sign (challenge "Y") "Y") "star 2"
    (submitStar_start (t0 + 60000) (t0 + 60000) "X" (challenge "X")
       (Sample.sign (challenge "X") "X") "star 1" constructed).

(** The two calls resume in turn, as the microtask queue has them, each
    to its end. *)
Definition overlapped : World :=
  resume 0 (resume 0 (resume 1 (resume 0 (resume 1 (resume 0 (resume 1 (resume 0
    two_submitted))))))).

(** A submission in the tick of [new Blockchain()], before the genesis
    block is pushed, and the two calls resumed in turn to their end. *)
Definition early_submitted : World :=
  submitStar_start t0 t0 "X" (challenge "X") (Sample.sign (challenge "X") "X")
    "star 1" (World_new t0).

Definition early : World :=
  resume 0 (resume 0 (resume 1 (resume 0 (resume 1 (resume 0 early_submitted))))).

End Examples.

(** ** Decimal numerals

    What [Number.prototype.toString] prints is read here as a list of digit
    values, most significant first. *)

Fixpoint uint_digits (d : Decimal.uint) : list Z :=
  match d with
  | Decimal.Nil => []
  | Decimal.D0 d => 0 :: uint_digits d
  | Decimal.D1 d => 1 :: uint_digits d
  | Decimal.D2 d => 2 :: uint_digits d
  | Decimal.D3 d => 3 :: uint_digits d
  | Decimal.D4 d => 4 :: uint_digits d
  | Decimal.D5 d => 5 :: uint_digits d
  | Decimal.D6 d => 6 :: uint_digits d
  | Decimal.D7 d => 7 :: uint_digits d
  | Decimal.D8 d => 8 :: uint_digits d
  | Decimal.D9 d => 9 :: uint_digits d
  end.

(** The number that the digits [ds] write after the number [acc]. *)
Definition digits_value (acc : Z) (ds : list Z) : Z :=
  fold_left (fun a d => 10 * a + d) ds acc.

Fixpoint digits_string (ds : list Z) : string :=
  match ds with
  | [] => EmptyString
  | d :: rest => String (ascii_of_nat (Z.to_nat (48 + d))) (digits_string rest)
  end.

Definition is_digit (d : Z) : Prop := 0 <= d <= 9.

(** * Facts *)

(** ** The built-ins on examples *)

Example split_examples :
  JS.split ":" "a:12:starRegistry" = ["a"; "12"; "starRegistry"]
  /\ JS.split ":" "abc" = ["abc"]
  /\ JS.split ":" "a::" = ["a"; EmptyString; EmptyString]
  /\ JS.split ":" EmptyString = [EmptyString].
Proof. repeat split. Qed.

Example parseInt_examples :
  map JS.parseInt
    ["1600000000"; " 12abc"; "-7"; "+0x1F"; "010"; "abc"; "undefined"; "0x"; "-"; "- 1"]
  = [Some 1600000000; Some 12; Some (-7); Some 31; Some 10; None; None; None; None; None].
Proof. reflexivity. Qed.

Example slice_examples :
  JS.slice_0_m3 (JS.toString 1600000000123) = "1600000000"
  /\ JS.slice_0_m3 (JS.toString (-123456)) = "-123"
  /\ JS.slice_0_m3 (JS.toString 12) = EmptyString.
Proof. repeat split. Qed.

(** The test vectors of FIPS 180-4 for the empty message, a one-block and
    a two-block message. *)
Example digest_examples :
  Sha256.digest EmptyString
  = "e3b0c44298fc1c149afbf4c8996fb92427ae41e4649b934ca495991b7852b855"
  /\ Sha256.digest "abc"
     = "ba7816bf8f01cfea414140de5dae2223b00361a396177a9cb410ff61f20015ad"
  /\ Sha256.digest "abcdbcdecdefdefgefghfghighijhijkijkljklmklmnlmnomnopnopq"
     = "248d6a61d20638b8e5c026930c3e6039a33ce45964ff2167f6ecedd419db06c1".
Proof. vm_compute. repeat split. Qed.

(** ** The microtask loop *)

Section MicrotaskFacts.

Context {S : Type}.

(** Running the jobs that are in the queue now, each once, is one pass of
    [forEach] over them: what they leave suspended lines up behind the
    jobs that were already waiting. *)
Lemma runMicrotasks_round (ks : list (S -> S * Task S)) :
  forall (n : nat) (rest : list (Job S)) (st : S),
    runMicrotasks (List.length ks + n) (map Resume ks ++ rest) st
    = runMicrotasks n (rest ++ snd (forEach (fun k => k) ks st))
        (fst (forEach (fun k => k) ks st)).
Proof.
  induction ks as [|k ks IH]; intros n rest st; simpl.
  - now rewrite app_nil_r.
  - destruct (k st) as [st1 t] eqn:Hk.
    rewrite <- app_assoc, IH.
    destruct (forEach (fun k0 => k0) ks st1) as [st2 q]; simpl.
    now rewrite <- app_assoc.
Qed.

Lemma runMicrotasks_nil (n : nat) (st : S) :
  runMicrotasks n [] st = (st, []).
Proof. destruct n; reflexivity. Qed.

Lemma runMicrotasks_caller (n : nat) (q : list (Job S)) (st : S) :
  runMicrotasks n (Caller :: q) st = (st, Caller :: q).
Proof. destruct n; reflexivity. Qed.

End MicrotaskFacts.

(** ** Strict equality *)

Lemma strict_eq_refl (x : option string) : strict_eq x x = true.
Proof. destruct x; simpl; [apply String.eqb_refl | reflexivity]. Qed.

Lemma strict_eq_true (x y : option string) : strict_eq x y = true <-> x = y.
Proof.
  destruct x as [a|], y as [b|]; simpl; split; intro H;
    try discriminate; try reflexivity.
  - apply String.eqb_eq in H. now subst.
  - injection H as ->. apply String.eqb_refl.
Qed.

(** ** Whole-chain validation *)

Section ValidateChainFacts.

Context {ext : Externals}.

(** The synchronous pass of [forEach]: nothing is written, every
    examined block leaves one suspended callback. *)
Lemma forEach_validateChain_callback (blocks : list Block) (st : VCState) :
  forEach validateChain_callback blocks st
  = (st, map (fun block =>
                Resume (validateChain_after_validate block (Block_validate block)))
             (examined blocks)).
Proof.
  induction blocks as [|block blocks IH]; simpl; [reflexivity|].
  unfold validateChain_callback at 1.
  destruct (Block.height block <=? 0); simpl; rewrite IH; reflexivity.
Qed.

(** The two continuations of the callback, case by case. *)
Lemma validateChain_after_validate_eq (block : Block) (valid : bool) (st : VCState) :
  validateChain_after_validate block valid st
  = if valid
    then (set_isValid true st,
          Await (validateChain_after_lookup block
                   (getBlockByHash (vc_self st) (Block.previousBlockHash block))))
    else (errorLog_push (invalid_block_msg block) (set_isValid false st), Return).
Proof. destruct valid; reflexivity. Qed.

Lemma validateChain_after_lookup_eq (block : Block) (found : option Block) (st : VCState) :
  validateChain_after_lookup block found st
  = match found with
    | None => (set_prevBlock None st,
               Throw "TypeError: Cannot read property 'hash' of null")
    | Some prev =>
        if strict_eq (Block.hash prev) (Block.hash block)
        then (set_prevBlock found st, Return)
        else (errorLog_push (invalid_previous_msg block) (set_prevBlock found st),
              Return)
    end.
Proof.
  destruct found as [prev|]; [|reflexivity].
  unfold validateChain_after_lookup; simpl.
  destruct (strict_eq (Block.hash prev) (Block.hash block)); reflexivity.
Qed.

(** First round of microtasks: the invalid blocks are logged, the valid
    ones look their predecessor up and suspend again. *)
Lemma round_after_validate (self : Blockchain) (blocks : list Block) :
  forall st : VCState,
    vc_self st = self ->
    let r := forEach (fun k => k)
               (map (fun block =>
                       validateChain_after_validate block (Block_validate block))
                    blocks) st in
    vc_self (fst r) = self
    /\ errorLog (fst r)
       = errorLog st
         ++ map invalid_block_msg
              (filter (fun block => negb (Block_validate block)) blocks)
    /\ snd r
       = map (fun block =>
                Resume (validateChain_after_lookup block
                          (getBlockByHash self (Block.previousBlockHash block))))
             (filter Block_validate blocks).
Proof.
  induction blocks as [|block blocks IH]; intros st Hself.
  - simpl. now rewrite app_nil_r.
  - cbn [map forEach filter].
    rewrite validateChain_after_validate_eq.
    destruct (Block_validate block) eqn:Hv; cbn [negb].
    + specialize (IH (set_isValid true st) Hself).
      destruct (forEach _ _ (set_isValid true st)) as [st2 q].
      cbn [fst snd suspended app map] in *.
      destruct IH as (H1 & H2 & H3).
      repeat split; [assumption | assumption |].
      now rewrite H3, Hself.
    + specialize (IH (errorLog_push (invalid_block_msg block) (set_isValid false st)) Hself).
      destruct (forEach _ _ (errorLog_push _ _)) as [st2 q].
      cbn [fst snd suspended app map] in *.
      destruct IH as (H1 & H2 & H3).
      repeat split; [assumption | | assumption].
      rewrite H2. cbn [errorLog errorLog_push set_isValid].
      now rewrite <- app_assoc.
Qed.

(** Second round: a block is logged when the block found under its
    [previousBlockHash] has a hash other than its own; nothing suspends. *)
Lemma round_after_lookup (self : Blockchain) (blocks : list Block) :
  forall st : VCState,
    vc_self st = self ->
    let r := forEach (fun k => k)
               (map (fun block =>
                       validateChain_after_lookup block
                         (getBlockByHash self (Block.previousBlockHash block)))
                    blocks) st in
    vc_self (fst r) = self
    /\ errorLog (fst r)
       = errorLog st
         ++ map invalid_previous_msg (filter (found_differs self) blocks)
    /\ snd r = [].
Proof.
  induction blocks as [|block blocks IH]; intros st Hself.
  - simpl. now rewrite app_nil_r.
  - cbn [map forEach filter].
    rewrite validateChain_after_lookup_eq. unfold found_differs at 1.
    destruct (getBlockByHash self (Block.previousBlockHash block)) as [prev|].
    + destruct (strict_eq (Block.hash prev) (Block.hash block)); cbn [negb].
      * specialize (IH (set_prevBlock (Some prev) st) Hself).
        destruct (forEach _ _ (set_prevBlock _ st)) as [st2 q].
        cbn [fst snd suspended app map] in *.
        exact IH.
      * specialize (IH (errorLog_push (invalid_previous_msg block)
                                      (set_prevBlock (Some prev) st)) Hself).
        destruct (forEach _ _ (errorLog_push _ _)) as [st2 q].
        cbn [fst snd suspended app map] in *.
        destruct IH as (H1 & H2 & H3).
        repeat split; [assumption | | assumption].
        rewrite H2. cbn [errorLog errorLog_push set_prevBlock].
        now rewrite <- app_assoc.
    + specialize (IH (set_prevBlock None st) Hself).
      destruct (forEach _ _ (set_prevBlock _ st)) as [st2 q].
      cbn [fst snd suspended app map] in *.
      exact IH.
Qed.

(** When the executor of [validateChain] returns, [errorLog] is still
    empty, whatever the chain holds. *)
Lemma validateChain_sync (self : Blockchain) :
  validateChain self
  = (mkVC self [] false None,
     map (fun block =>
            Resume (validateChain_after_validate block (Block_validate block)))
         (examined (chain self)),
     Resolved true).
Proof.
  unfold validateChain. rewrite forEach_validateChain_callback. reflexivity.
Qed.

Lemma validateChain_settled_true (self : Blockchain) :
  validateChain_settled self = Resolved true.
Proof.
  unfold validateChain_settled. now rewrite validateChain_sync.
Qed.

Lemma examined_length (blocks : list Block) :
  (List.length (examined blocks) <= List.length blocks)%nat.
Proof. apply filter_length_le. Qed.

(** Once the callbacks ran to their end the queue is empty, the object
    is untouched, and [errorLog] holds first the invalid blocks, then the
    valid blocks whose predecessor lookup found a block with another hash
    than their own. *)
Lemma validateChain_final_closed (self : Blockchain) :
  snd (validateChain_final self) = []
  /\ vc_self (fst (validateChain_final self)) = self
  /\ errorLog (fst (validateChain_final self))
     = map invalid_block_msg
         (filter (fun block => negb (Block_validate block)) (examined (chain self)))
       ++ map invalid_previous_msg
            (filter (found_differs self)
               (filter Block_validate (examined (chain self)))).
Proof.
  unfold validateChain_final. rewrite validateChain_sync. cbv beta iota.
  set (bs := examined (chain self)).
  set (k1 := fun block => validateChain_after_validate block (Block_validate block)).
  set (k2 := fun block =>
               validateChain_after_lookup block
                 (getBlockByHash self (Block.previousBlockHash block))).
  set (st0 := mkVC self [] false None).
  assert (Hlen1 : (List.length bs <= List.length (chain self))%nat)
    by apply examined_length.
  assert (Hlen2 : (List.length (filter Block_validate bs) <= List.length bs)%nat)
    by apply filter_length_le.
  pose proof (round_after_validate self bs st0 eq_refl) as R1.
  cbv zeta in R1. fold k1 in R1.
  destruct R1 as (S1 & L1 & Q1).
  set (r1 := forEach (fun k => k) (map k1 bs) st0) in *.
  pose proof (round_after_lookup self (filter Block_validate bs) (fst r1) S1) as R2.
  cbv zeta in R2. fold k2 in R2.
  destruct R2 as (S2 & L2 & Q2).
  set (r2 := forEach (fun k => k) (map k2 (filter Block_validate bs)) (fst r1)) in *.
  assert (Hrun :
    runMicrotasks (2 * List.length (chain self))
      (map (fun block => Resume (k1 block)) bs) st0 = (fst r2, [])).
  { replace (2 * List.length (chain self))%nat
      with (List.length (map k1 bs)
            + (List.length (map k2 (filter Block_validate bs))
               + (2 * List.length (chain self) - List.length bs
                  - List.length (filter Block_validate bs))))%nat
      by (rewrite !length_map; lia).
    rewrite <- (map_map k1 Resume bs).
    rewrite <- (app_nil_r (map Resume (map k1 bs))).
    rewrite runMicrotasks_round. fold r1. cbn [app].
    rewrite Q1.
    rewrite <- (map_map k2 Resume (filter Block_validate bs)).
    rewrite <- (app_nil_r (map Resume (map k2 _))).
    rewrite runMicrotasks_round. fold r2. cbn [app].
    rewrite Q2. apply runMicrotasks_nil. }
  unfold k1 in Hrun. rewrite Hrun. cbn [fst snd].
  repeat split; [assumption|].
  rewrite L2, L1. reflexivity.
Qed.

(** A valid block after the first whose [previousBlockHash] names a block
    of the chain is logged as soon as its own hash is not its
    [previousBlockHash]. *)
Lemma linked_block_is_logged (self : Blockchain) (block prev : Block) :
  In block (chain self) ->
  0 < Block.height block ->
  Block_validate block = true ->
  getBlockByHash self (Block.previousBlockHash block) = Some prev ->
  Block.hash block <> Block.previousBlockHash block ->
  In (invalid_previous_msg block) (validateChain_errorLog self).
Proof.
  intros Hin Hpos Hvalid Hfound Hneq.
  unfold validateChain_errorLog.
  destruct (validateChain_final_closed self) as (_ & _ & ->).
  apply in_or_app. right. apply in_map.
  apply filter_In. split.
  - apply filter_In. split; [|assumption].
    apply filter_In. split; [assumption|].
    destruct (Z.leb_spec (Block.height block) 0); [lia | reflexivity].
  - unfold found_differs. rewrite Hfound.
    unfold getBlockByHash in Hfound. apply find_some in Hfound.
    destruct Hfound as [_ Heq]. apply strict_eq_true in Heq.
    destruct (strict_eq (Block.hash prev) (Block.hash block)) eqn:E; [|reflexivity].
    apply strict_eq_true in E. congruence.
Qed.

(** A block whose [previousBlockHash] names no block of the chain makes
    its callback throw; nothing is written. *)
Lemma unlinked_block_throws (block : Block) (st : VCState) :
  validateChain_after_lookup block None st
  = (set_prevBlock None st, Throw "TypeError: Cannot read property 'hash' of null")
  /\ errorLog (fst (validateChain_after_lookup block None st)) = errorLog st.
Proof. split; reflexivity. Qed.

End ValidateChainFacts.

(** ** Appending a block *)

Section AppendFacts.

Context {ext : Externals}.

Lemma linked_fields (now : Z) (block : Block) (self : Blockchain) :
  Block.height (linked now block self) = Z.of_nat (List.length (chain self))
  /\ Block.time (linked now block self) = seconds_string now
  /\ Block.hash (linked now block self) = Block.hash block
  /\ Block.body (linked now block self) = Block.body block.
Proof.
  unfold linked.
  destruct (getChainHeight self >? 0); [|repeat split].
  destruct (getBlockByHeight self _); repeat split.
Qed.

Lemma finalized_eq (now : Z) (block : Block) (self : Blockchain) :
  finalized now block self
  = Block.set_hash (Some (SHA256 (JSON_stringify (linked now block self))))
      (linked now block self).
Proof.
  unfold finalized, _addBlock. fold (linked now block self).
  set (b := Block.set_hash _ (linked now block self)).
  destruct (negb (Block_validate b)); [reflexivity|].
  rewrite validateChain_settled_true. reflexivity.
Qed.

(** [_addBlock] has two outcomes: rejected with the object untouched, or
    resolved with the finalized block pushed and [height] set to the new
    length. *)
Lemma _addBlock_eq (now : Z) (block : Block) (self : Blockchain) :
  _addBlock now block self
  = let block' := finalized now block self in
    if Block_validate block'
    then (mkBlockchain (chain self ++ [block'])
            (Z.of_nat (List.length (chain self ++ [block']))),
          block', Resolved block')
    else (self, block',
          Rejected ("Block is invalid " ++ show (Block.hash block'))%string).
Proof.
  cbv zeta. rewrite finalized_eq.
  unfold _addBlock. fold (linked now block self).
  set (b := Block.set_hash _ (linked now block self)).
  destruct (Block_validate b); cbn [negb]; [|reflexivity].
  rewrite validateChain_settled_true. reflexivity.
Qed.

(** A block whose hash is unset on entry passes its own validation. *)
Lemma finalized_valid (now : Z) (block : Block) (self : Blockchain) :
  Block.hash block = None -> Block_validate (finalized now block self) = true.
Proof.
  intro Hnone. rewrite finalized_eq.
  pose proof (linked_fields now block self) as (_ & _ & Hh & _).
  rewrite Hnone in Hh.
  destruct (linked now block self) as [h ht bd tm ph]; simpl in Hh; subst h.
  unfold Block_validate, Block_contentHash, Block.set_hash; simpl.
  apply String.eqb_refl.
Qed.

(** Once the constructor's [initializeChain()] has run the chain holds
    the genesis block and [height] is 1. *)
Lemma Blockchain_new_eq (now : Z) :
  Blockchain_new now
  = mkBlockchain
      [finalized now (Block_new (GenesisData "Genesis Block")) Blockchain_constructor]
      1.
Proof.
  unfold Blockchain_new, initializeChain. cbn [height Blockchain_constructor Z.eqb].
  rewrite _addBlock_eq. cbv zeta.
  rewrite finalized_valid by reflexivity. reflexivity.
Qed.

Lemma serial_height (self : Blockchain) :
  serial self -> height self = Z.of_nat (List.length (chain self)).
Proof.
  induction 1 as [now | self now block self' block' added _ _ Hadd].
  - rewrite Blockchain_new_eq. reflexivity.
  - rewrite _addBlock_eq in Hadd. cbv zeta in Hadd.
    destruct (Block_validate (finalized now block self)); [|discriminate].
    injection Hadd as <- _ _. reflexivity.
Qed.

Lemma heights_are_indices_push (blocks : list Block) (block : Block) :
  heights_are_indices blocks ->
  Block.height block = Z.of_nat (List.length blocks) ->
  heights_are_indices (blocks ++ [block]).
Proof.
  intros Hinv Hh i b Hnth.
  destruct (Nat.lt_ge_cases i (List.length blocks)) as [Hlt|Hge].
  - rewrite nth_error_app1 in Hnth by assumption. now apply Hinv.
  - rewrite nth_error_app2 in Hnth by assumption.
    destruct (i - List.length blocks)%nat as [|k] eqn:Hk.
    + simpl in Hnth. injection Hnth as <-. rewrite Hh. f_equal. lia.
    + simpl in Hnth. destruct k; discriminate.
Qed.

Lemma finalized_height (now : Z) (block : Block) (self : Blockchain) :
  Block.height (finalized now block self) = Z.of_nat (List.length (chain self)).
Proof.
  rewrite finalized_eq. cbn [Block.height Block.set_hash].
  apply linked_fields.
Qed.

Lemma _addBlock_heights (now : Z) (block : Block) (self : Blockchain) :
  heights_are_indices (chain self) ->
  heights_are_indices (chain (fst (fst (_addBlock now block self)))).
Proof.
  intro Hinv. rewrite _addBlock_eq. cbv zeta.
  destruct (Block_validate (finalized now block self)); cbn [fst chain];
    [|assumption].
  apply heights_are_indices_push; [assumption | apply finalized_height].
Qed.

Lemma serial_heights (self : Blockchain) :
  serial self -> heights_are_indices (chain self).
Proof.
  induction 1 as [now | self now block self' block' added _ IH Hadd].
  - rewrite Blockchain_new_eq. cbn [chain].
    intros [|[|i]] b Hnth; try discriminate.
    simpl in Hnth. injection Hnth as <-.
    rewrite finalized_height. reflexivity.
  - pose proof (_addBlock_heights now block self IH) as H.
    now rewrite Hadd in H.
Qed.

Lemma serial_nonempty (self : Blockchain) :
  serial self -> (0 < List.length (chain self))%nat.
Proof.
  intro Hr. pose proof (serial_height self Hr) as Hh.
  destruct Hr as [now | self now block self' block' added _ Hadd].
  - rewrite Blockchain_new_eq. simpl. lia.
  - rewrite _addBlock_eq in Hadd. cbv zeta in Hadd.
    destruct (Block_validate (finalized now block self)); [|discriminate].
    injection Hadd as <- _ _. cbn [chain]. rewrite length_app. simpl. lia.
Qed.

End AppendFacts.

(** ** Appends that run one at a time build valid and linked chains *)

Section ReachableFacts.

Context {ext : Externals}.

Lemma getBlockByHeight_index (blocks : list Block) :
  forall (offset : Z) (j : nat) (block : Block),
    (forall (i : nat) (b : Block),
        nth_error blocks i = Some b -> Block.height b = offset + Z.of_nat i) ->
    nth_error blocks j = Some block ->
    hd_error (filter (fun p => Block.height p =? offset + Z.of_nat j) blocks) = Some block.
Proof.
  induction blocks as [|a blocks IH]; intros offset j block Hinv Hnth.
  - destruct j; discriminate.
  - destruct j as [|j]; cbn [filter].
    + simpl in Hnth. injection Hnth as ->.
      rewrite (Hinv 0%nat block eq_refl). rewrite Z.eqb_refl. reflexivity.
    + rewrite (Hinv 0%nat a eq_refl).
      destruct (Z.eqb_spec (offset + Z.of_nat 0) (offset + Z.of_nat (Datatypes.S j)));
        [lia|].
      replace (offset + Z.of_nat (Datatypes.S j)) with ((offset + 1) + Z.of_nat j) by lia.
      apply IH; [|exact Hnth].
      intros i b Hi. rewrite (Hinv (Datatypes.S i) b Hi). lia.
Qed.

(** Every block of such a chain passes its own validation. *)
Lemma serial_valid (self : Blockchain) :
  serial self ->
  forall block : Block, In block (chain self) -> Block_validate block = true.
Proof.
  induction 1 as [now | self now block self' block' added _ IH Hadd];
    intros b Hin.
  - rewrite Blockchain_new_eq in Hin. cbn [chain] in Hin.
    destruct Hin as [<-|[]]. now apply finalized_valid.
  - rewrite _addBlock_eq in Hadd. cbv zeta in Hadd.
    destruct (Block_validate (finalized now block self)) eqn:Hv; [|discriminate].
    injection Hadd as <- _ _. cbn [chain] in Hin.
    apply in_app_or in Hin. destruct Hin as [Hin|[<-|[]]]; [now apply IH | exact Hv].
Qed.

(** Every block after the first carries the hash of the block before it. *)
Lemma serial_linked (self : Blockchain) :
  serial self ->
  forall (i : nat) (prev block : Block),
    nth_error (chain self) i = Some prev ->
    nth_error (chain self) (Datatypes.S i) = Some block ->
    Block.previousBlockHash block = Block.hash prev.
Proof.
  induction 1 as [now | self now block self' block' added Hr IH Hadd];
    intros i prev b Hprev Hb.
  - rewrite Blockchain_new_eq in Hb. cbn [chain] in Hb.
    destruct i; discriminate.
  - pose proof (serial_height self Hr) as Hh.
    pose proof (serial_nonempty self Hr) as Hpos.
    pose proof (serial_heights self Hr) as Hinv.
    rewrite _addBlock_eq in Hadd. cbv zeta in Hadd.
    destruct (Block_validate (finalized now block self)); [|discriminate].
    injection Hadd as <- _ _. cbn [chain] in Hprev, Hb.
    destruct (Nat.lt_ge_cases (Datatypes.S i) (List.length (chain self))) as [Hlt|Hge].
    + rewrite nth_error_app1 in Hprev by lia.
      rewrite nth_error_app1 in Hb by lia.
      now apply (IH i).
    + assert (Hi : Datatypes.S i = List.length (chain self)).
      { assert (Hsome : nth_error (chain self ++ [finalized now block self])
                          (Datatypes.S i) <> None) by congruence.
        apply nth_error_Some in Hsome. rewrite length_app in Hsome. simpl in Hsome. lia. }
      rewrite nth_error_app1 in Hprev by lia.
      rewrite nth_error_app2 in Hb by lia.
      rewrite Hi, Nat.sub_diag in Hb. simpl in Hb. injection Hb as <-.
      rewrite finalized_eq. cbn [Block.previousBlockHash Block.set_hash].
      unfold linked. unfold getChainHeight. rewrite Hh.
      destruct (Z.gtb_spec (Z.of_nat (List.length (chain self))) 0); [|lia].
      cbn [Block.height Block.set_time Block.set_height].
      unfold getBlockByHeight.
      replace (Z.of_nat (List.length (chain self)) - 1) with (0 + Z.of_nat i) by lia.
      rewrite (getBlockByHeight_index (chain self) 0 i prev); [reflexivity | | exact Hprev].
      intros k bk Hk. now rewrite (Hinv k bk Hk).
Qed.

(** After appends that ran one at a time, a block after the first is logged as
    having an invalid predecessor, unless its own hash happens to be its
    [previousBlockHash]. *)
Lemma serial_blocks_are_logged (self : Blockchain) :
  serial self ->
  forall (i : nat) (block : Block),
    nth_error (chain self) (Datatypes.S i) = Some block ->
    Block.hash block <> Block.previousBlockHash block ->
    In (invalid_previous_msg block) (validateChain_errorLog self).
Proof.
  intros Hr i block Hb Hneq.
  assert (Hin : In block (chain self)) by (eapply nth_error_In; exact Hb).
  destruct (nth_error (chain self) i) as [prev|] eqn:Hprev.
  - pose proof (serial_linked self Hr i prev block Hprev Hb) as Hlink.
    destruct (getBlockByHash self (Block.previousBlockHash block)) as [found|] eqn:Hfound.
    + apply (linked_block_is_logged self block found); try assumption.
      * rewrite (serial_heights self Hr _ _ Hb). lia.
      * now apply (serial_valid self Hr).
    + unfold getBlockByHash in Hfound.
      pose proof (find_none _ _ Hfound prev (nth_error_In _ _ Hprev)) as Hno.
      cbv beta in Hno. rewrite Hlink, strict_eq_refl in Hno. discriminate.
  - apply nth_error_None in Hprev.
    assert (Hsome : nth_error (chain self) (Datatypes.S i) <> None) by congruence.
    apply nth_error_Some in Hsome. lia.
Qed.

(** On every chain, a block after the genesis block that fails its own
    validation is logged, after the promise was resolved with [true]. *)
Lemma invalid_block_is_logged (self : Blockchain) (block : Block) :
  In block (chain self) ->
  0 < Block.height block ->
  Block_validate block = false ->
  validateChain_settled self = Resolved true
  /\ In (invalid_block_msg block) (validateChain_errorLog self).
Proof.
  intros Hin Hpos Hinvalid. split; [apply validateChain_settled_true|].
  unfold validateChain_errorLog.
  destruct (validateChain_final_closed self) as (_ & _ & ->).
  apply in_or_app. left. apply in_map.
  apply filter_In. split.
  - apply filter_In. split; [assumption|].
    destruct (Z.leb_spec (Block.height block) 0); [lia | reflexivity].
  - now rewrite Hinvalid.
Qed.

End ReachableFacts.


(** ** Block objects *)

Section ObjectFacts.

Context {ext : Externals}.

Lemma nth_update_nth_same (r : nat) (f : Block -> Block) (l : list Block) (d : Block) :
  (r < List.length l)%nat -> nth r (update_nth r f l) d = f (nth r l d).
Proof.
  revert r; induction l as [|b l IH]; intros [|r] Hlt; simpl in *; try lia.
  - reflexivity.
  - apply IH. lia.
Qed.

Lemma nth_update_nth_other (r r' : nat) (f : Block -> Block) (l : list Block) (d : Block) :
  r <> r' -> nth r' (update_nth r f l) d = nth r' l d.
Proof.
  revert r r'; induction l as [|b l IH]; intros [|r] [|r'] Hneq; simpl;
    try reflexivity; try congruence.
  apply IH. congruence.
Qed.

Lemma length_update_nth (r : nat) (f : Block -> Block) (l : list Block) :
  List.length (update_nth r f l) = List.length l.
Proof.
  revert r; induction l as [|b l IH]; intros [|r]; simpl; try reflexivity.
  now rewrite IH.
Qed.

Lemma deref_write_same (r : nat) (f : Block -> Block) (st : Store) :
  (r < List.length (objects st))%nat -> deref (write r f st) r = f (deref st r).
Proof. intro Hlt. unfold deref, write; simpl. now apply nth_update_nth_same. Qed.

Lemma write_in_range (r r' : nat) (f : Block -> Block) (st : Store) :
  (r' < List.length (objects st))%nat -> (r' < List.length (objects (write r f st)))%nat.
Proof. intro H. unfold write; simpl. now rewrite length_update_nth. Qed.

(** A write to an object that the chain does not refer to leaves the
    chain as it is. *)
Lemma view_write_other (r : nat) (f : Block -> Block) (st : Store) :
  ~ In r (chain_refs st) -> view (write r f st) = view st.
Proof.
  intro Hnotin. unfold view, write; simpl. f_equal.
  apply map_ext_in. intros r' Hin. unfold deref; simpl.
  apply nth_update_nth_other. intros ->. contradiction.
Qed.

Lemma view_push (r : nat) (h : Z) (st : Store) :
  view (mkStore (objects st) (chain_refs st ++ [r]) h)
  = mkBlockchain (chain (view st) ++ [deref st r]) h.
Proof. unfold view, deref; simpl. now rewrite map_app. Qed.

(** On an object that is not in the chain, [_addBlock] does to the chain
    what its account on values says. *)
Lemma _addBlock_object_fresh (now : Z) (r : nat) (st : Store) :
  (r < List.length (objects st))%nat ->
  ~ In r (chain_refs st) ->
  view (fst (_addBlock_object now r st))
  = fst (fst (_addBlock now (deref st r) (view st)))
  /\ deref (fst (_addBlock_object now r st)) r = finalized now (deref st r) (view st)
  /\ snd (_addBlock_object now r st)
     = match snd (_addBlock now (deref st r) (view st)) with
       | Resolved _ => Resolved r
       | Rejected e => Rejected e
       | Pending => Pending
       end.
Proof.
  intros Hlt Hnotin.
  rewrite _addBlock_eq, finalized_eq. cbv zeta.
  unfold _addBlock_object.
  set (st1 := write r (Block.set_height _) st).
  set (st2 := write r (Block.set_time _) st1).
  assert (L2 : (r < List.length (objects st2))%nat)
    by (now apply write_in_range, write_in_range).
  assert (V2 : view st2 = view st).
  { unfold st2. rewrite view_write_other by exact Hnotin.
    unfold st1. now rewrite view_write_other. }
  assert (D2 : deref st2 r
               = Block.set_time (seconds_string now)
                   (Block.set_height (Z.of_nat (List.length (chain (view st))))
                      (deref st r))).
  { unfold st2. rewrite deref_write_same by now apply write_in_range.
    unfold st1. rewrite deref_write_same by exact Hlt.
    cbn [view chain]. now rewrite length_map. }
  cbv zeta.
  set (st3 := if getChainHeight (view st2) >? 0 then _ else st2).
  assert (H3 : (r < List.length (objects st3))%nat
               /\ view st3 = view st
               /\ deref st3 r = linked now (deref st r) (view st)
               /\ chain_refs st3 = chain_refs st).
  { unfold st3, linked. rewrite V2, D2. cbv zeta.
    destruct (getChainHeight (view st) >? 0).
    - destruct (getBlockByHeight (view st) _) as [prevBlock|].
      + repeat split.
        * now apply write_in_range.
        * rewrite view_write_other by exact Hnotin. exact V2.
        * rewrite deref_write_same by exact L2. now rewrite D2.
      + now repeat split.
    - now repeat split. }
  destruct H3 as (L3 & V3 & D3 & C3).
  set (st4 := write r (Block.set_hash _) st3).
  assert (D4 : deref st4 r
               = Block.set_hash (Some (SHA256 (JSON_stringify (linked now (deref st r) (view st)))))
                   (linked now (deref st r) (view st))).
  { unfold st4. rewrite deref_write_same by exact L3. now rewrite D3. }
  assert (V4 : view st4 = view st).
  { unfold st4. rewrite view_write_other by (rewrite C3; exact Hnotin). exact V3. }
  rewrite D4.
  set (b := Block.set_hash _ (linked now (deref st r) (view st))) in *.
  destruct (Block_validate b); cbn [negb fst snd].
  - set (st5 := mkStore _ _ _).
    assert (V5 : view st5
                 = mkBlockchain (chain (view st) ++ [b])
                     (Z.of_nat (List.length (chain (view st) ++ [b])))).
    { unfold st5. rewrite view_push, V4, D4. f_equal.
      rewrite !length_app.
      unfold st4, write; cbn [chain_refs]. rewrite C3.
      cbn [view chain]. now rewrite length_map. }
    rewrite V5, validateChain_settled_true. cbn [negb fst snd].
    repeat split; [exact V5 | exact D4].
  - repeat split; [exact V4 | exact D4].
Qed.

Lemma finalize_object_refs (now : Z) (r : nat) (st : Store) :
  chain_refs (finalize_object now r st) = chain_refs st
  /\ height_field (finalize_object now r st) = height_field st.
Proof.
  unfold finalize_object. cbv zeta.
  destruct (getChainHeight _ >? 0); [|split; reflexivity].
  destruct (getBlockByHeight _ _); split; reflexivity.
Qed.

(** [_addBlock] on an object, whatever the object: rejected with the
    array and the height untouched, or resolved with the reference pushed. *)
Lemma _addBlock_object_eq (now : Z) (r : nat) (st : Store) :
  _addBlock_object now r st
  = let st' := finalize_object now r st in
    if Block_validate (deref st' r)
    then (mkStore (objects st') (chain_refs st' ++ [r])
            (Z.of_nat (List.length (chain_refs st' ++ [r]))),
          Resolved r)
    else (st', Rejected ("Block is invalid " ++ show (Block.hash (deref st' r)))%string).
Proof.
  unfold _addBlock_object. cbv zeta. fold (finalize_object now r st).
  destruct (Block_validate (deref (finalize_object now r st) r)); cbn [negb];
    [|reflexivity].
  rewrite validateChain_settled_true. reflexivity.
Qed.

End ObjectFacts.

(** ** The stars of an owner *)

Section GetStarsFacts.

Context {ext : Externals}.

Lemma forEach_getStars_callback (address : string) (blocks : list Block) (st : GSState) :
  forEach (getStars_callback address) blocks st
  = (st, map (fun block =>
                Resume (getStars_after_getBData address (Block_getBData block)))
             blocks).
Proof.
  induction blocks as [|block blocks IH]; simpl; [reflexivity|].
  rewrite IH. reflexivity.
Qed.

Lemma getStars_after_getBData_stars (address : string) (block : Block) (st : GSState) :
  let r := getStars_after_getBData address (Block_getBData block) st in
  stars (fst r) = stars st ++ star_if_owned address block
  /\ suspended (snd r) = [].
Proof.
  unfold getStars_after_getBData, star_if_owned.
  destruct (Block_getBData block) as [[d | owner m sg star]|]; simpl;
    try (now rewrite app_nil_r).
  destruct (String.eqb owner address); simpl; [easy | now rewrite app_nil_r].
Qed.

(** The one round of microtasks: every block adds its star, if it is
    owned by [address], in the order of the chain; nothing suspends. *)
Lemma round_after_getBData (address : string) (blocks : list Block) :
  forall st : GSState,
    let r := forEach (fun k => k)
               (map (fun block =>
                       getStars_after_getBData address (Block_getBData block))
                    blocks) st in
    stars (fst r) = stars st ++ flat_map (star_if_owned address) blocks
    /\ snd r = [].
Proof.
  induction blocks as [|block blocks IH]; intro st.
  - simpl. now rewrite app_nil_r.
  - cbn [map forEach flat_map].
    pose proof (getStars_after_getBData_stars address block st) as Hstep.
    cbv zeta in Hstep.
    destruct (getStars_after_getBData address (Block_getBData block) st) as [st1 t].
    cbn [fst snd] in Hstep. destruct Hstep as [Hs Hq].
    specialize (IH st1). cbv zeta in IH.
    destruct (forEach _ _ st1) as [st2 q]. cbn [fst snd] in *.
    destruct IH as [IHs IHq].
    rewrite Hq, IHq, IHs, Hs, <- app_assoc. easy.
Qed.

(** The array is empty when the promise is resolved with it ... *)
Lemma stars_when_resolved_nil (self : Blockchain) (address : string) :
  stars_when_resolved self address = [].
Proof.
  unfold stars_when_resolved, getStarsByWalletAddress.
  rewrite forEach_getStars_callback. reflexivity.
Qed.

(** ... and filled when the awaiting caller resumes. *)
Lemma await_getStarsByWalletAddress_eq (self : Blockchain) (address : string) :
  await_getStarsByWalletAddress self address
  = Some (flat_map (star_if_owned address) (chain self)).
Proof.
  unfold await_getStarsByWalletAddress, getStarsByWalletAddress.
  rewrite forEach_getStars_callback. cbv beta iota.
  rewrite <- (map_map
                (fun block => getStars_after_getBData address (Block_getBData block))
                Resume (chain self)).
  set (k := fun block => getStars_after_getBData address (Block_getBData block)).
  replace (Datatypes.S (List.length (map Resume (map k (chain self)))))
    with (List.length (map k (chain self)) + 1)%nat
    by (rewrite !length_map; lia).
  rewrite runMicrotasks_round.
  pose proof (round_after_getBData address (chain self) (mkGS self [] None)) as R.
  cbv zeta in R. fold k in R. destruct R as [Rs Rq].
  rewrite Rq. cbn [app]. rewrite runMicrotasks_caller.
  now rewrite Rs.
Qed.

End GetStarsFacts.

(** ** The ownership flow *)

Section SubmitStarFacts.

Context {ext : Externals}.

(** The parsed time is NaN exactly when the message has no second
    component or [parseInt] finds no number at its start. *)
Lemma message_time_None_iff (message : string) :
  message_time message = None
  <-> nth_error (JS.split ":" message) 1 = None
      \/ exists component : string,
           nth_error (JS.split ":" message) 1 = Some component
           /\ JS.parseInt component = None.
Proof.
  unfold message_time, JS.index1_ToString.
  destruct (nth_error (JS.split ":" message) 1) as [component|].
  - split.
    + intro H. right. now exists component.
    + intros [H | (c & Hc & Hp)]; [discriminate|]. now injection Hc as ->.
  - split; [now left | reflexivity].
Qed.

Lemma submitStar_eq (now now' : Z) (address message signature star : string)
  (self : Blockchain) :
  submitStar now now' address message signature star self
  = if JS.diff_gt (current_time now) (message_time message) 300000
    then (self, Rejected "More than 5 minutes have elapsed")
    else verify_and_add now' address message signature star self.
Proof.
  unfold submitStar, verify_and_add, current_time, message_time.
  change (5 * 60 * 1000) with 300000.
  destruct (JS.diff_gt _ _ 300000); [reflexivity|].
  destruct (bitcoinMessage_verify message address signature) as [[|]|];
    try reflexivity.
  rewrite _addBlock_eq. cbv zeta.
  rewrite finalized_valid by reflexivity. reflexivity.
Qed.

(** The promise is rejected for elapsed time exactly when the difference
    of the two parsed numbers exceeds 300000, in seconds. *)
Lemma submitStar_expired_iff (now now' : Z) (address message signature star : string)
  (self : Blockchain) :
  snd (submitStar now now' address message signature star self)
  = Rejected "More than 5 minutes have elapsed"
  <-> exists cur t : Z,
        current_time now = Some cur /\ message_time message = Some t
        /\ cur - t > 300000.
Proof.
  rewrite submitStar_eq. unfold JS.diff_gt.
  destruct (current_time now) as [cur|], (message_time message) as [t|].
  - destruct (cur - t >? 300000) eqn:Hgt.
    + split; [intros _ | reflexivity].
      exists cur, t. repeat split. lia.
    + split.
      * unfold verify_and_add.
        destruct (bitcoinMessage_verify message address signature) as [[|]|];
          discriminate.
      * intros (c & t' & Hc & Ht & Hlt).
        injection Hc as <-. injection Ht as <-. lia.
  - split; [|intros (c & t' & _ & Ht & _); discriminate].
    unfold verify_and_add.
    destruct (bitcoinMessage_verify message address signature) as [[|]|];
      discriminate.
  - split; [|intros (c & t' & Hc & _ & _); discriminate].
    unfold verify_and_add.
    destruct (bitcoinMessage_verify message address signature) as [[|]|];
      discriminate.
  - split; [|intros (c & t' & Hc & _ & _); discriminate].
    unfold verify_and_add.
    destruct (bitcoinMessage_verify message address signature) as [[|]|];
      discriminate.
Qed.

End SubmitStarFacts.

(** ** Calls of [_addBlock] that overlap *)

Section OverlapFacts.

Context {ext : Externals}.

Lemma activation_ok_longer (self self' : Blockchain) (a : Activation) :
  (List.length (chain self) <= List.length (chain self'))%nat ->
  activation_ok self a -> activation_ok self' a.
Proof.
  intros Hle [Hh Hv]. split; [lia | exact Hv].
Qed.

Lemma Forall_replace {A : Type} (P : A -> Prop) (l : list A) (a : A) :
  Forall P l -> P a ->
  forall i : nat, Forall P (firstn i l ++ a :: skipn (Datatypes.S i) l).
Proof.
  intros Hl Ha. induction Hl as [|b l Hb Hl IH]; intro i.
  - destruct i; cbn; now constructor.
  - destruct i as [|i]; cbn [firstn skipn app].
    + constructor; [exact Ha | exact Hl].
    + constructor; [exact Hb | apply IH].
Qed.

Lemma Forall_remove {A : Type} (P : A -> Prop) (l : list A) :
  Forall P l -> forall i : nat, Forall P (firstn i l ++ skipn (Datatypes.S i) l).
Proof.
  intro Hl. induction Hl as [|b l Hb Hl IH]; intro i.
  - destruct i; cbn; constructor.
  - destruct i as [|i]; cbn [firstn skipn app].
    + exact Hl.
    + constructor; [exact Hb | apply IH].
Qed.

Lemma _addBlock_hash_ok (self : Blockchain) (block : Block) :
  Block.height block <= Z.of_nat (List.length (chain self)) ->
  activation_ok self (_addBlock_hash block).
Proof. intro Hh. split; [exact Hh | reflexivity]. Qed.

(** One resumption keeps what holds of a world. *)
Lemma resume_ok (i : nat) (w : World) : world_ok w -> world_ok (resume i w).
Proof.
  intros (Hheight & Hidx & Hvalid & Hfl). unfold resume.
  destruct (nth_error (inflight w) i) as [a|] eqn:Ha; [|now repeat split].
  assert (Hok : activation_ok (object w) a).
  { rewrite Forall_forall in Hfl. apply Hfl. eapply nth_error_In; exact Ha. }
  destruct a as [block h | block prevBlock | block isBlockValid | block isValidChain];
    cbn [_addBlock_resume].
  - destruct Hok as [Hh _]. cbn [block_of] in Hh.
    destruct (h >? 0); unfold world_ok; cbn [object inflight];
      (split; [exact Hheight|]; split; [exact Hidx|]; split; [exact Hvalid|];
       apply Forall_replace; [exact Hfl|]).
    + split; [exact Hh | exact I].
    + now apply _addBlock_hash_ok.
  - destruct Hok as [Hh _]. cbn [block_of] in Hh.
    unfold world_ok. cbn [object inflight].
    split; [exact Hheight|]. split; [exact Hidx|]. split; [exact Hvalid|].
    apply Forall_replace; [exact Hfl|].
    apply _addBlock_hash_ok. now destruct prevBlock.
  - destruct Hok as [Hh Hv]. cbn [block_of] in Hh.
    destruct isBlockValid; cbn [negb]; unfold world_ok;
      cbn [object inflight chain height].
    + split; [|split; [|split]].
      * destruct (chain (object w)); reflexivity.
      * intros j b Hj.
        destruct (Nat.lt_ge_cases j (List.length (chain (object w)))) as [Hlt|Hge].
        -- rewrite nth_error_app1 in Hj by exact Hlt. now apply Hidx.
        -- rewrite nth_error_app2 in Hj by exact Hge.
           destruct (j - List.length (chain (object w)))%nat as [|k] eqn:Hk;
             [|now destruct k].
           cbn in Hj. injection Hj as <-. lia.
      * intros b Hb. apply in_app_or in Hb. destruct Hb as [Hb|[<-|[]]].
        -- now apply Hvalid.
        -- now symmetry.
      * apply Forall_replace.
        -- eapply Forall_impl; [|exact Hfl].
           intros a. apply activation_ok_longer. cbn [chain].
           rewrite length_app. lia.
        -- split; [|exact I]. cbn [block_of chain]. rewrite length_app. lia.
    + split; [exact Hheight|]. split; [exact Hidx|]. split; [exact Hvalid|].
      now apply Forall_remove.
  - destruct isValidChain as [[|]| |]; cbn [negb]; unfold world_ok;
      cbn [object inflight];
      (split; [exact Hheight|]; split; [exact Hidx|]; split; [exact Hvalid|];
       now apply Forall_remove).
Qed.

Lemma call_ok (now : Z) (block : Block) (w : World) : world_ok w -> world_ok (call now block w).
Proof.
  intros (Hheight & Hidx & Hvalid & Hfl). unfold call, world_ok. cbn [object inflight].
  repeat split; try assumption.
  apply Forall_app. split; [exact Hfl|]. constructor; [|constructor].
  split; [|exact I]. cbn. lia.
Qed.

(** Whatever the order of the calls and of the resumptions: [height] is
    the length of the chain once a block is there, no block is stored
    below the height it holds, and every stored block passes
    [validate()]. *)
Lemma built_ok (w : World) : built w -> world_ok w.
Proof.
  induction 1 as [now | w now block _ IH | w i _ IH].
  - change (World_new now)
      with (call now (Block_new (GenesisData "Genesis Block"))
              (mkWorld Blockchain_constructor [] [])).
    apply call_ok. repeat split; try constructor.
    + intros i b Hi. now destruct i.
    + intros b [].
  - now apply call_ok.
  - now apply resume_ok.
Qed.

End OverlapFacts.

Section SerialFacts.

Context {ext : Externals}.

(** A call that runs alone, from its start to its end with nothing else
    in flight, does what [_addBlock] says. *)
Lemma run_alone (now : Z) (block : Block) (w : World) :
  inflight w = [] ->
  resume 0 (resume 0 (resume 0 (resume 0 (call now block w))))
  = mkWorld (fst (fst (_addBlock now block (object w)))) []
      (outcomes w ++ [snd (_addBlock now block (object w))]).
Proof.
  destruct w as [self fl out]. cbn [inflight object outcomes]. intros ->.
  unfold call, _addBlock, _addBlock_start. cbn [object inflight outcomes app].
  cbv zeta.
  set (b0 := Block.set_time (seconds_string now)
               (Block.set_height (Z.of_nat (List.length (chain self))) block)).
  unfold resume at 4. cbn [inflight nth_error object outcomes _addBlock_resume].
  destruct (getChainHeight self >? 0).
  - cbn [firstn skipn app]. unfold resume at 3.
    cbn [inflight nth_error object outcomes _addBlock_resume firstn skipn app].
    set (b1 := match getBlockByHeight self (Block.height b0 - 1) with
               | Some prevBlock => Block.set_previousBlockHash (Block.hash prevBlock) b0
               | None => b0
               end).
    unfold _addBlock_hash. cbv zeta.
    set (b2 := Block.set_hash (Some (SHA256 (JSON_stringify b1))) b1).
    unfold resume at 2.
    cbn [inflight nth_error object outcomes _addBlock_resume firstn skipn app].
    destruct (Block_validate b2); cbn [negb].
    + cbn [firstn skipn app]. unfold resume.
      cbn [inflight nth_error object outcomes _addBlock_resume firstn skipn app].
      destruct (validateChain_settled _) as [[|]| |]; reflexivity.
    + cbn [firstn skipn app]. unfold resume. reflexivity.
  - cbn [firstn skipn app]. unfold _addBlock_hash. cbv zeta.
    set (b2 := Block.set_hash (Some (SHA256 (JSON_stringify b0))) b0).
    unfold resume at 3.
    cbn [inflight nth_error object outcomes _addBlock_resume firstn skipn app].
    destruct (Block_validate b2); cbn [negb].
    + cbn [firstn skipn app]. unfold resume at 2.
      cbn [inflight nth_error object outcomes _addBlock_resume firstn skipn app].
      destruct (validateChain_settled _) as [[|]| |]; reflexivity.
    + cbn [firstn skipn app]. unfold resume. reflexivity.
Qed.

(** The chains built by calls that do not overlap are among those the
    class builds, with nothing left in flight. *)
Lemma serial_built (self : Blockchain) :
  serial self -> exists w : World, built w /\ object w = self /\ inflight w = [].
Proof.
  induction 1 as [now | self now block self' block' added _ IH Hadd].
  - exists (resume 0 (resume 0 (resume 0 (resume 0 (World_new now))))).
    split; [repeat apply built_resume; apply built_new|].
    change (World_new now)
      with (call now (Block_new (GenesisData "Genesis Block"))
              (mkWorld Blockchain_constructor [] [])).
    rewrite run_alone by reflexivity. cbn [object inflight].
    split; reflexivity.
  - destruct IH as (w & Hw & Hobj & Hfl).
    exists (resume 0 (resume 0 (resume 0 (resume 0 (call now block w))))).
    split; [repeat apply built_resume; now apply built_call|].
    rewrite run_alone by exact Hfl. cbn [object inflight].
    rewrite Hobj, Hadd. split; reflexivity.
Qed.

Lemma serial_reachable (self : Blockchain) : serial self -> reachable self.
Proof.
  intro Hs. split.
  - pose proof (serial_nonempty self Hs) as Hpos.
    destruct (chain self); [cbn in Hpos; lia | discriminate].
  - destruct (serial_built self Hs) as (w & Hw & Hobj & _). now exists w.
Qed.

(** What holds of every object the class builds. *)
Lemma reachable_ok (self : Blockchain) :
  reachable self ->
  height self = Z.of_nat (List.length (chain self))
  /\ (forall (i : nat) (block : Block),
        nth_error (chain self) i = Some block -> Block.height block <= Z.of_nat i)
  /\ (forall block : Block, In block (chain self) -> Block_validate block = true).
Proof.
  intros (Hne & w & Hw & <-).
  destruct (built_ok w Hw) as (Hheight & Hidx & Hvalid & _).
  repeat split; try assumption.
  rewrite Hheight. destruct (chain (object w)); [contradiction | reflexivity].
Qed.

(** A submission calls [_addBlock] or nothing. *)
Lemma built_submitStar_start (now now' : Z) (address message signature star : string)
  (w : World) :
  built w -> built (submitStar_start now now' address message signature star w).
Proof.
  intro Hw. unfold submitStar_start.
  destruct (JS.diff_gt _ _ _); [exact Hw|].
  destruct (bitcoinMessage_verify message address signature) as [[|]|];
    try exact Hw.
  now apply built_call.
Qed.

End SerialFacts.

(** * Properties of the class *)

Section Claims.

Context {ext : Externals}.

(** C2.  On every chain that exists after construction (genesis only) or
    after an append whose promise was resolved, the promise of
    [validateChain()] is resolved with [true]: no error is reported. *)
Theorem validateChain_reports_no_error (self : Blockchain) :
  reachable self -> validateChain_settled self = Resolved true.
Proof.
  intros _. apply validateChain_settled_true.
Qed.

(** C4, amended.  On every chain the class builds, overlapping appends
    included, once a block is there [getChainHeight()] resolves with the
    length of the chain array: with 1 once construction has run to its end,
    and after appends that ran one at a time with the height of the newest
    block plus one. *)
Theorem getChainHeight_is_length (self : Blockchain) :
  reachable self ->
  getChainHeight self = Z.of_nat (List.length (chain self))
  /\ (forall now : Z, getChainHeight (Blockchain_new now) = 1)
  /\ (serial self ->
      exists newest : Block,
        nth_error (chain self) (List.length (chain self) - 1) = Some newest
        /\ getChainHeight self = Block.height newest + 1).
Proof.
  intro Hr. destruct (reachable_ok self Hr) as (Hh & _ & _).
  split; [exact Hh|].
  split; [intro now; now rewrite Blockchain_new_eq|]. intro Hs.
  pose proof (serial_nonempty self Hs) as Hpos.
  pose proof (serial_heights self Hs) as Hinv.
  destruct (nth_error (chain self) (List.length (chain self) - 1)) as [newest|] eqn:Hn.
  - exists newest. split; [reflexivity|].
    unfold getChainHeight. rewrite Hh, (Hinv _ _ Hn). lia.
  - apply nth_error_None in Hn. lia.
Qed.

(** C8.  When the block that [_addBlock] has just finalized fails
    [validate()], the promise is rejected with the error "Block is invalid
    <hash>", and the chain array and the height are what they were; the
    blocks of the chain hold what they held, the block handed over not being
    one of them. *)
Theorem _addBlock_invalid_block_rejected (now : Z) (r : nat) (st : Store) :
  Block_validate (deref (fst (_addBlock_object now r st)) r) = false ->
  snd (_addBlock_object now r st)
  = Rejected ("Block is invalid "
              ++ show (Block.hash (deref (fst (_addBlock_object now r st)) r)))%string
  /\ chain_refs (fst (_addBlock_object now r st)) = chain_refs st
  /\ height_field (fst (_addBlock_object now r st)) = height_field st
  /\ (~ In r (chain_refs st) -> view (fst (_addBlock_object now r st)) = view st).
Proof.
  rewrite _addBlock_object_eq. cbv zeta.
  destruct (Block_validate (deref (finalize_object now r st) r)) eqn:Hv;
    cbn [fst snd]; intro Hinvalid.
  - unfold deref in Hinvalid, Hv. cbn [objects] in Hinvalid. congruence.
  - destruct (finalize_object_refs now r st) as [Hrefs Hheight].
    repeat split; try assumption.
    intro Hnotin. unfold finalize_object. cbv zeta.
    set (st1 := write r (Block.set_height _) st).
    set (st2 := write r (Block.set_time _) st1).
    assert (V2 : view st2 = view st).
    { unfold st2. rewrite view_write_other by exact Hnotin.
      unfold st1. now rewrite view_write_other. }
    rewrite view_write_other.
    + destruct (getChainHeight (view st2) >? 0); [|exact V2].
      destruct (getBlockByHeight (view st2) _); [|exact V2].
      now rewrite view_write_other.
    + destruct (getChainHeight (view st2) >? 0); [|exact Hnotin].
      destruct (getBlockByHeight (view st2) _); exact Hnotin.
Qed.

(** C9.  For a block whose hash is unset when it is handed over,
    [_addBlock] stores as its hash the digest of the serialization of the
    block that carries the assigned height, time and previous hash, the
    hash field being left out (unset); with a SHA-256 library, whose
    digests are 64 hexadecimal digits, that is 256 bits. *)
Theorem _addBlock_hash_commits (now : Z) (block : Block) (self : Blockchain) :
  Block.hash block = None ->
  (forall text : string, String.length (SHA256 text) = 64%nat) ->
  let block' := finalized now block self in
  Block.height block' = Z.of_nat (List.length (chain self))
  /\ Block.time block' = seconds_string now
  /\ Block.previousBlockHash block'
     = (if getChainHeight self >? 0
        then match getBlockByHeight self (Z.of_nat (List.length (chain self)) - 1) with
             | Some prevBlock => Block.hash prevBlock
             | None => Block.previousBlockHash block
             end
        else Block.previousBlockHash block)
  /\ Block.body block' = Block.body block
  /\ exists digest : string,
       Block.hash block' = Some digest
       /\ digest = SHA256 (JSON_stringify (Block.set_hash None block'))
       /\ (4 * Z.of_nat (String.length digest) = 256).
Proof.
  intros Hnone Hlen block'. subst block'.
  rewrite finalized_eq.
  cbn [Block.height Block.time Block.previousBlockHash Block.body Block.hash
       Block.set_hash].
  pose proof (linked_fields now block self) as (Hh & Ht & Hs & Hb).
  repeat split; try assumption.
  - unfold linked. cbn [Block.height Block.set_time Block.set_height].
    destruct (getChainHeight self >? 0); [|reflexivity].
    destruct (getBlockByHeight self _); reflexivity.
  - exists (SHA256 (JSON_stringify (linked now block self))).
    repeat split.
    + rewrite Hnone in Hs.
      destruct (linked now block self) as [h ht bd tm ph].
      cbn in Hs. subst h. reflexivity.
    + rewrite Hlen. reflexivity.
Qed.

(** After appends that ran one at a time, the block stored at position
    [i] has height [i]; and whatever block is appended next, alone, this
    still holds afterwards. *)
Theorem heights_are_array_indices (self : Blockchain) :
  serial self ->
  heights_are_indices (chain self)
  /\ forall (now : Z) (block : Block),
       heights_are_indices (chain (fst (fst (_addBlock now block self)))).
Proof.
  intro Hr. pose proof (serial_heights self Hr) as Hinv.
  split; [exact Hinv|].
  intros now block. now apply _addBlock_heights.
Qed.

(** When the second colon-delimited component of the message is absent
    or does not start with a number, its parsed time is NaN, the elapsed-time
    test does not fire, and the outcome is that of the signature check
    alone. *)
Theorem submitStar_unparsed_time (now now' : Z)
  (address message signature star : string) (self : Blockchain) :
  message_time message = None ->
  submitStar now now' address message signature star self
  = verify_and_add now' address message signature star self.
Proof.
  intro Hnan. rewrite submitStar_eq, Hnan.
  unfold JS.diff_gt. destruct (current_time now); reflexivity.
Qed.

(** After appends that ran one at a time, the only block at height 0 is the
    genesis block, whose payload is the genesis marker. *)
Lemma serial_genesis (self : Blockchain) :
  serial self ->
  forall block : Block,
    In block (chain self) -> Block.height block = 0 ->
    Block.body block = encode (GenesisData "Genesis Block").
Proof.
  intro Hr.
  assert (Hhead : exists genesis rest,
             chain self = genesis :: rest
             /\ Block.body genesis = encode (GenesisData "Genesis Block")).
  { induction Hr as [now | self now block self' block' added _ IH Hadd].
    - rewrite Blockchain_new_eq. cbn [chain]. eexists; eexists. split; [reflexivity|].
      rewrite finalized_eq. cbn [Block.body Block.set_hash].
      pose proof (linked_fields now (Block_new (GenesisData "Genesis Block"))
                    Blockchain_constructor) as (_ & _ & _ & Hb).
      exact Hb.
    - destruct IH as (genesis & rest & Hchain & Hbody).
      rewrite _addBlock_eq in Hadd. cbv zeta in Hadd.
      destruct (Block_validate (finalized now block self)); [|discriminate].
      injection Hadd as <- _ _. cbn [chain]. rewrite Hchain.
      exists genesis, (rest ++ [finalized now block self]). now split. }
  destruct Hhead as (genesis & rest & Hchain & Hbody).
  intros block Hin Hzero.
  apply In_nth_error in Hin. destruct Hin as [i Hi].
  pose proof (serial_heights self Hr i block Hi) as Hh.
  assert (i = 0%nat) by lia. subst i.
  rewrite Hchain in Hi. simpl in Hi. injection Hi as <-. exact Hbody.
Qed.

(** Hence, when the genesis marker decodes to itself, they satisfy the
    hypothesis of the theorem below for every address. *)
Lemma serial_genesis_not_owned (self : Blockchain) (address : string) :
  decode (encode (GenesisData "Genesis Block")) = Some (GenesisData "Genesis Block") ->
  serial self ->
  forall block : Block,
    In block (chain self) -> Block.height block = 0 ->
    star_if_owned address block = [].
Proof.
  intros Hround Hr block Hin Hzero.
  unfold star_if_owned, Block_getBData.
  now rewrite (serial_genesis self Hr block Hin Hzero), Hround.
Qed.

(** C7.  On a chain whose block at height 0 holds no ownership record of
    [address], the caller that awaits [getStarsByWalletAddress(address)]
    finds in the array the star fields of the non-genesis blocks whose
    decoded payload has that address, in chain order; blocks whose payload
    does not decode are skipped. *)
Theorem getStarsByWalletAddress_returns_owned_stars (self : Blockchain)
  (address : string) :
  (forall block : Block,
      In block (chain self) -> Block.height block = 0 ->
      star_if_owned address block = []) ->
  await_getStarsByWalletAddress self address
  = Some (spec_getStarsByAddress address (chain self)).
Proof.
  intro Hgenesis. rewrite await_getStarsByWalletAddress_eq. f_equal.
  unfold spec_getStarsByAddress.
  induction (chain self) as [|block blocks IH]; [reflexivity|].
  cbn [flat_map filter].
  rewrite IH by (intros b Hb; apply Hgenesis; now right).
  destruct (Block.height block =? 0) eqn:Hz; cbn [negb flat_map].
  - rewrite (Hgenesis block (or_introl eq_refl)) by now apply Z.eqb_eq.
    reflexivity.
  - reflexivity.
Qed.

End Claims.

(** * Further properties of the class *)

(** ** Decimal numerals *)

Lemma string_of_uint_digits (d : Decimal.uint) :
  NilEmpty.string_of_uint d = digits_string (uint_digits d).
Proof. induction d; simpl; now rewrite ?IHd. Qed.

Lemma uint_digits_are_digits (d : Decimal.uint) : Forall is_digit (uint_digits d).
Proof. induction d; simpl; constructor; try assumption; unfold is_digit; lia. Qed.

Lemma of_uint_acc_value (d : Decimal.uint) :
  forall acc : positive,
    Zpos (Pos.of_uint_acc d acc) = digits_value (Zpos acc) (uint_digits d).
Proof.
  unfold digits_value.
  induction d; intro acc; cbn [Pos.of_uint_acc uint_digits fold_left];
    try reflexivity; rewrite IHd; f_equal; lia.
Qed.

Lemma of_uint_value (d : Decimal.uint) :
  Z.of_N (Pos.of_uint d) = digits_value 0 (uint_digits d).
Proof.
  induction d; cbn [Pos.of_uint uint_digits Z.of_N]; try reflexivity; try exact IHd;
    rewrite of_uint_acc_value; reflexivity.
Qed.

Lemma to_uint_value (p : positive) :
  digits_value 0 (uint_digits (Pos.to_uint p)) = Zpos p.
Proof.
  rewrite <- of_uint_value, DecimalPos.Unsigned.of_to. reflexivity.
Qed.

Lemma is_digit_cases (d : Z) :
  is_digit d ->
  d = 0 \/ d = 1 \/ d = 2 \/ d = 3 \/ d = 4 \/ d = 5 \/ d = 6 \/ d = 7 \/ d = 8 \/ d = 9.
Proof. unfold is_digit. lia. Qed.

Lemma digit_value_digit (d : Z) :
  is_digit d -> JS.digit_value 10 (ascii_of_nat (Z.to_nat (48 + d))) = Some d.
Proof.
  intro H. apply is_digit_cases in H.
  repeat (destruct H as [-> | H]; [reflexivity|]). subst. reflexivity.
Qed.

Lemma digits_prefix_digits (ds : list Z) :
  Forall is_digit ds ->
  forall acc : option Z,
    JS.digits_prefix 10 acc (digits_string ds)
    = match ds with
      | [] => acc
      | _ => Some (digits_value (match acc with Some v => v | None => 0 end) ds)
      end.
Proof.
  induction 1 as [|d ds Hd Hds IH]; intro acc; [reflexivity|].
  cbn [digits_string JS.digits_prefix]. rewrite (digit_value_digit d Hd), IH.
  unfold digits_value. cbn [fold_left].
  destruct ds as [|d' ds']; destruct acc as [v|]; cbn [fold_left]; f_equal; f_equal; lia.
Qed.

Lemma digits_string_length (ds : list Z) :
  String.length (digits_string ds) = List.length ds.
Proof. induction ds; simpl; congruence. Qed.

Lemma digits_string_prefix (ds : list Z) :
  forall n : nat, substring 0 n (digits_string ds) = digits_string (firstn n ds).
Proof.
  induction ds as [|d ds IH]; intros [|n]; simpl; try reflexivity.
  now rewrite IH.
Qed.

Lemma digits_value_shift (ds : list Z) :
  forall acc : Z,
    digits_value acc ds = acc * 10 ^ Z.of_nat (List.length ds) + digits_value 0 ds.
Proof.
  unfold digits_value.
  induction ds as [|d ds IH]; intro acc; cbn [fold_left List.length].
  - rewrite Z.pow_0_r. lia.
  - rewrite (IH (10 * acc + d)), (IH (10 * 0 + d)).
    rewrite Nat2Z.inj_succ, Z.pow_succ_r by lia. ring.
Qed.

Lemma digits_value_bound (ds : list Z) :
  Forall is_digit ds -> 0 <= digits_value 0 ds < 10 ^ Z.of_nat (List.length ds).
Proof.
  induction 1 as [|d ds Hd Hds IH].
  - cbn. lia.
  - unfold digits_value in *. cbn [fold_left List.length].
    pose proof (digits_value_shift ds (10 * 0 + d)) as Hs. unfold digits_value in Hs.
    rewrite Hs, Nat2Z.inj_succ, Z.pow_succ_r by lia.
    unfold is_digit in Hd. nia.
Qed.

Lemma digits_firstn (ds : list Z) :
  Forall is_digit ds -> forall n : nat, Forall is_digit (firstn n ds).
Proof.
  induction 1 as [|d ds Hd Hds IH]; intros [|n]; cbn [firstn]; constructor; auto.
Qed.

Lemma digits_value_app (l1 l2 : list Z) (acc : Z) :
  digits_value acc (l1 ++ l2) = digits_value (digits_value acc l1) l2.
Proof. unfold digits_value. apply fold_left_app. Qed.

(** Cutting the last three digits off divides by a thousand. *)
Lemma digits_value_cut (ds : list Z) :
  Forall is_digit ds ->
  (3 <= List.length ds)%nat ->
  digits_value 0 (firstn (List.length ds - 3) ds) = digits_value 0 ds / 1000.
Proof.
  intros Hds Hlen.
  set (n := (List.length ds - 3)%nat).
  assert (Hl : List.length (skipn n ds) = 3%nat) by (rewrite length_skipn; lia).
  assert (Hd2 : Forall is_digit (skipn n ds)).
  { apply Forall_forall. intros x Hx. rewrite Forall_forall in Hds. apply Hds.
    rewrite <- (firstn_skipn n ds). apply in_or_app. now right. }
  pose proof (digits_value_bound _ Hd2) as Hb. rewrite Hl in Hb.
  pose proof (digits_value_app (firstn n ds) (skipn n ds) 0) as E.
  rewrite firstn_skipn, (digits_value_shift (skipn n ds)), Hl in E.
  change (10 ^ Z.of_nat 3) with 1000 in *.
  apply Z.div_unique with (r := digits_value 0 (skipn n ds)); lia.
Qed.

(** A number of at least a thousand is written with at least four
    digits. *)
Lemma digits_value_long (ds : list Z) :
  Forall is_digit ds -> 1000 <= digits_value 0 ds -> (4 <= List.length ds)%nat.
Proof.
  intros Hds Hbig. pose proof (digits_value_bound ds Hds) as Hb.
  destruct (Nat.lt_ge_cases (List.length ds) 4) as [Hlt|Hge]; [|exact Hge].
  assert (10 ^ Z.of_nat (List.length ds) <= 10 ^ 3)
    by (apply Z.pow_le_mono_r; lia).
  change (10 ^ 3) with 1000 in *. lia.
Qed.

Ltac concrete_digit :=
  repeat match goal with
         | |- context [ascii_of_nat (Z.to_nat (48 + ?d))] =>
             let c := eval vm_compute in (ascii_of_nat (Z.to_nat (48 + d))) in
             change (ascii_of_nat (Z.to_nat (48 + d))) with c
         end.

Ltac each_digit H :=
  apply is_digit_cases in H;
  repeat (destruct H as [-> | H]; [|]); [..|subst].

Lemma trimStart_digits (ds : list Z) (n : nat) :
  Forall is_digit ds ->
  JS.trimStart n (digits_string ds) = digits_string ds.
Proof.
  intro Hds. destruct n as [|n]; [reflexivity|].
  destruct Hds as [|d ds Hd _]; [reflexivity|].
  cbn [digits_string].
  each_digit Hd; concrete_digit; reflexivity.
Qed.

Lemma sign_of_digits (ds : list Z) :
  Forall is_digit ds ->
  match digits_string ds with
  | String "-" rest => (-1, rest)
  | String "+" rest => (1, rest)
  | _ => (1, digits_string ds)
  end = (1, digits_string ds).
Proof.
  intro Hds. destruct Hds as [|d ds Hd _]; [reflexivity|].
  cbn [digits_string].
  each_digit Hd; concrete_digit; reflexivity.
Qed.

Lemma radix_of_digits (ds : list Z) :
  Forall is_digit ds ->
  match digits_string ds with
  | String "0" (String "x" rest) => (16, rest)
  | String "0" (String "X" rest) => (16, rest)
  | _ => (10, digits_string ds)
  end = (10, digits_string ds).
Proof.
  intro Hds. destruct Hds as [|d ds Hd Hds]; [reflexivity|].
  cbn [digits_string].
  each_digit Hd; concrete_digit; try reflexivity.
  destruct Hds as [|d' ds' Hd' _]; [reflexivity|].
  cbn [digits_string].
  each_digit Hd'; concrete_digit; reflexivity.
Qed.

(** [parseInt] reads a string of digits as the number they write, and as
    its opposite behind a minus sign. *)
Lemma parseInt_digits (ds : list Z) :
  Forall is_digit ds -> ds <> [] ->
  JS.parseInt (digits_string ds) = Some (digits_value 0 ds).
Proof.
  intros Hds Hne. unfold JS.parseInt. cbv zeta.
  rewrite !(trimStart_digits ds _ Hds), (sign_of_digits ds Hds),
    (radix_of_digits ds Hds), (digits_prefix_digits ds Hds).
  destruct ds; [congruence|]. f_equal; try lia.
Qed.

Lemma parseInt_minus_digits (ds : list Z) :
  Forall is_digit ds ->
  JS.parseInt (String "-" (digits_string ds))
  = match ds with
    | [] => None
    | _ => Some (- digits_value 0 ds)
    end.
Proof.
  intros Hds. unfold JS.parseInt. cbv zeta.
  change (JS.trimStart (String.length (String "-" (digits_string ds)))
            (String "-" (digits_string ds)))
    with (String "-" (digits_string ds)).
  cbv beta iota.
  rewrite (radix_of_digits ds Hds), (digits_prefix_digits ds Hds).
  destruct ds; [reflexivity|]. f_equal; try lia.
Qed.

(** [new Date().getTime().toString()] on a positive clock: its digits. *)
Lemma toString_pos (p : positive) :
  JS.toString (Zpos p) = digits_string (uint_digits (Pos.to_uint p)).
Proof.
  unfold JS.toString. cbn [Z.to_int NilZero.string_of_int].
  unfold NilZero.string_of_uint.
  pose proof (DecimalPos.Unsigned.to_uint_nonnil p) as Hnn.
  destruct (Pos.to_uint p) eqn:E; try congruence;
    rewrite <- E; apply string_of_uint_digits.
Qed.

Lemma toString_neg (p : positive) :
  JS.toString (Zneg p) = String "-" (digits_string (uint_digits (Pos.to_uint p))).
Proof.
  unfold JS.toString. cbn [Z.to_int NilZero.string_of_int].
  unfold NilZero.string_of_uint.
  pose proof (DecimalPos.Unsigned.to_uint_nonnil p) as Hnn.
  destruct (Pos.to_uint p) eqn:E; try congruence;
    rewrite <- E; f_equal; apply string_of_uint_digits.
Qed.

(** Below a thousand in absolute value the clock string is cut down to
    nothing, or to a lone minus sign. *)
Lemma current_time_small_check :
  forallb (fun k => match current_time (Z.of_nat k), current_time (- Z.of_nat k) with
                    | None, None => true
                    | _, _ => false
                    end) (seq 0 1000) = true.
Proof. vm_compute. reflexivity. Qed.

Lemma current_time_small (now : Z) :
  Z.abs now < 1000 -> current_time now = None.
Proof.
  intro Hsmall.
  pose proof current_time_small_check as H. rewrite forallb_forall in H.
  specialize (H (Z.to_nat (Z.abs now))).
  assert (Hin : In (Z.to_nat (Z.abs now)) (seq 0 1000)) by (apply in_seq; lia).
  specialize (H Hin). rewrite Z2Nat.id in H by lia.
  destruct (Z.abs_spec now) as [[Hpos E]|[Hneg E]]; rewrite E in H.
  - destruct (current_time now); [discriminate | reflexivity].
  - rewrite Z.opp_involutive in H.
    destruct (current_time (- now)); [discriminate|].
    destruct (current_time now); [discriminate | reflexivity].
Qed.

(** The clock in seconds, as [submitStar] reads it: the milliseconds cut by
    three digits, towards zero; not a number below a thousand milliseconds. *)
Lemma current_time_eq (now : Z) :
  current_time now = if Z.abs now <? 1000 then None else Some (Z.quot now 1000).
Proof.
  destruct (Z.ltb_spec (Z.abs now) 1000) as [Hsmall|Hbig];
    [now apply current_time_small|].
  unfold current_time, seconds_string, JS.slice_0_m3.
  destruct now as [|p|p]; [cbn in Hbig; lia | |].
  - rewrite toString_pos.
    set (ds := uint_digits (Pos.to_uint p)).
    assert (Hds : Forall is_digit ds) by apply uint_digits_are_digits.
    assert (Hv : digits_value 0 ds = Zpos p) by apply to_uint_value.
    assert (Hlen : (4 <= List.length ds)%nat)
      by (apply digits_value_long; [exact Hds | rewrite Hv; cbn in Hbig; lia]).
    rewrite digits_string_length, digits_string_prefix.
    rewrite parseInt_digits.
    + rewrite digits_value_cut, Hv by (try assumption; lia).
      f_equal. symmetry. apply Z.quot_div_nonneg; lia.
    + now apply digits_firstn.
    + intro Hnil. apply (f_equal (@List.length Z)) in Hnil.
      rewrite length_firstn in Hnil. simpl in Hnil. lia.
  - rewrite toString_neg.
    set (ds := uint_digits (Pos.to_uint p)).
    assert (Hds : Forall is_digit ds) by apply uint_digits_are_digits.
    assert (Hv : digits_value 0 ds = Zpos p) by apply to_uint_value.
    assert (Hlen : (4 <= List.length ds)%nat)
      by (apply digits_value_long; [exact Hds | rewrite Hv; cbn in Hbig; lia]).
    cbn [String.length]. rewrite digits_string_length.
    replace (Datatypes.S (List.length ds) - 3)%nat
      with (Datatypes.S (List.length ds - 3)) by lia.
    cbn [substring]. rewrite digits_string_prefix.
    rewrite parseInt_minus_digits.
    + destruct (firstn (List.length ds - 3) ds) eqn:E.
      * apply (f_equal (@List.length Z)) in E.
        rewrite length_firstn in E. simpl in E. lia.
      * rewrite <- E, digits_value_cut, Hv by (try assumption; lia).
        f_equal. change (Z.neg p) with (- Z.pos p).
        rewrite Z.quot_opp_l by lia. f_equal. symmetry. apply Z.quot_div_nonneg; lia.
    + now apply digits_firstn.
Qed.

(** ** The challenge message *)

Lemma split_nonempty (c : ascii) (s : string) : JS.split c s <> [].
Proof.
  destruct s as [|x s]; cbn [JS.split]; [discriminate|].
  destruct (Ascii.eqb x c); [discriminate|].
  destruct (JS.split c s); discriminate.
Qed.

Lemma split_single_inv (c x : ascii) (s : string) :
  JS.split c (String x s) = [String x s] -> Ascii.eqb x c = false /\ JS.split c s = [s].
Proof.
  cbn [JS.split]. destruct (Ascii.eqb x c); [discriminate|].
  pose proof (split_nonempty c s) as Hne.
  destruct (JS.split c s) as [|piece pieces]; [congruence|]. intro H.
  injection H as -> ->. now split.
Qed.

(** A string without the separator, followed by the separator: the string
    is the first piece. *)
Lemma split_app (c : ascii) (a rest : string) :
  JS.split c a = [a] ->
  JS.split c (a ++ String c rest) = a :: JS.split c rest.
Proof.
  induction a as [|x a IH]; intro H.
  - cbn [append JS.split]. now rewrite Ascii.eqb_refl.
  - apply split_single_inv in H. destruct H as [Hx Ha].
    cbn [append JS.split]. rewrite Hx, (IH Ha). reflexivity.
Qed.

Lemma split_prefix (c : ascii) (s : string) :
  JS.split c s = [s] ->
  forall n : nat, JS.split c (substring 0 n s) = [substring 0 n s].
Proof.
  induction s as [|x s IH]; intros H [|n]; try reflexivity.
  apply split_single_inv in H. destruct H as [Hx Hs].
  cbn [substring JS.split]. now rewrite Hx, (IH Hs n).
Qed.

Lemma split_digits (ds : list Z) :
  Forall is_digit ds -> JS.split ":" (digits_string ds) = [digits_string ds].
Proof.
  induction 1 as [|d ds Hd Hds IH]; [reflexivity|].
  cbn [digits_string JS.split]. rewrite IH.
  each_digit Hd; concrete_digit; reflexivity.
Qed.

(** The clock string holds no colon. *)
Lemma split_seconds_string (now : Z) :
  JS.split ":" (seconds_string now) = [seconds_string now].
Proof.
  unfold seconds_string, JS.slice_0_m3. apply split_prefix.
  destruct now as [|p|p].
  - reflexivity.
  - rewrite toString_pos. apply split_digits, uint_digits_are_digits.
  - rewrite toString_neg. cbn [JS.split].
    rewrite (split_digits _ (uint_digits_are_digits _)). reflexivity.
Qed.

Lemma requestMessage_pieces (now : Z) (address : string) :
  JS.split ":" address = [address] ->
  JS.split ":" (requestMessageOwnershipVerification now address)
  = [address; seconds_string now; "starRegistry"].
Proof.
  intro Haddr. unfold requestMessageOwnershipVerification.
  change (address ++ ":" ++ seconds_string now ++ ":" ++ "starRegistry")%string
    with (address ++ String ":" (seconds_string now ++ String ":" "starRegistry"))%string.
  rewrite (split_app _ _ _ Haddr), (split_app _ _ _ (split_seconds_string now)).
  reflexivity.
Qed.

(** ** Filters *)

Lemma filter_none {A : Type} (f : A -> bool) (l : list A) :
  (forall a : A, In a l -> f a = false) -> filter f l = [].
Proof.
  induction l as [|a l IH]; intro H; [reflexivity|].
  cbn [filter]. rewrite (H a (or_introl eq_refl)). apply IH.
  intros b Hb. apply H. now right.
Qed.

Lemma filter_all {A : Type} (f : A -> bool) (l : list A) :
  (forall a : A, In a l -> f a = true) -> filter f l = l.
Proof.
  induction l as [|a l IH]; intro H; [reflexivity|].
  cbn [filter]. rewrite (H a (or_introl eq_refl)). f_equal. apply IH.
  intros b Hb. apply H. now right.
Qed.

(** ** The chain and its lookups *)

Section ChainFacts.

Context {ext : Externals}.

(** X1.  [getBlockByHash(hash)] resolves with the first block of the chain
    whose hash is [hash], and with [null] exactly when no block has it. *)
Theorem getBlockByHash_first_match (self : Blockchain) (hash : option string) :
  match getBlockByHash self hash with
  | Some block =>
      exists i : nat,
        nth_error (chain self) i = Some block
        /\ Block.hash block = hash
        /\ forall (j : nat) (b : Block),
             (j < i)%nat -> nth_error (chain self) j = Some b -> Block.hash b <> hash
  | None => forall b : Block, In b (chain self) -> Block.hash b <> hash
  end.
Proof.
  unfold getBlockByHash. induction (chain self) as [|a blocks IH]; cbn [find].
  - intros b [].
  - destruct (strict_eq (Block.hash a) hash) eqn:E.
    + exists 0%nat. apply strict_eq_true in E. repeat split; [exact E|].
      intros j b Hj. lia.
    + assert (Ha : Block.hash a <> hash).
      { intro H. apply strict_eq_true in H. congruence. }
      destruct (find _ blocks) as [block|].
      * destruct IH as (i & Hi & Hh & Hfirst).
        exists (Datatypes.S i). repeat split; [exact Hi | exact Hh |].
        intros [|j] b Hj Hb; cbn in Hb.
        -- injection Hb as <-. exact Ha.
        -- apply (Hfirst j b); [lia | exact Hb].
      * intros b [<-|Hb]; [exact Ha | now apply IH].
Qed.

Lemma filter_height_index (blocks : list Block) :
  forall offset : Z,
    (forall (i : nat) (b : Block),
        nth_error blocks i = Some b -> Block.height b = offset + Z.of_nat i) ->
    forall h : Z,
      hd_error (filter (fun p => Block.height p =? h) blocks)
      = if h <? offset then None else nth_error blocks (Z.to_nat (h - offset)).
Proof.
  induction blocks as [|a blocks IH]; intros offset Hinv h.
  - cbn. destruct (h <? offset); [reflexivity|]. now destruct (Z.to_nat (h - offset)).
  - cbn [filter]. rewrite (Hinv 0%nat a eq_refl).
    assert (Hinv' : forall (i : nat) (b : Block),
               nth_error blocks i = Some b -> Block.height b = (offset + 1) + Z.of_nat i).
    { intros i b Hi. rewrite (Hinv (Datatypes.S i) b Hi). lia. }
    destruct (Z.eqb_spec (offset + Z.of_nat 0) h) as [E|E].
    + cbn [hd_error]. destruct (Z.ltb_spec h offset); [lia|].
      replace (Z.to_nat (h - offset)) with 0%nat by lia. reflexivity.
    + rewrite (IH (offset + 1) Hinv' h).
      destruct (Z.ltb_spec h (offset + 1)), (Z.ltb_spec h offset); try lia; try reflexivity.
      replace (Z.to_nat (h - offset)) with (Datatypes.S (Z.to_nat (h - (offset + 1)))) by lia.
      reflexivity.
Qed.

(** X2.  On a chain whose blocks hold their index as height, as after
    appends that ran one at a time, [getBlockByHeight(height)] is the array
    access [chain[height]]: [null] below 0 and from the length on. *)
Theorem getBlockByHeight_is_index (self : Blockchain) :
  heights_are_indices (chain self) ->
  forall h : Z,
    getBlockByHeight self h
    = if h <? 0 then None else nth_error (chain self) (Z.to_nat h).
Proof.
  intros Hinv h. unfold getBlockByHeight.
  rewrite (filter_height_index (chain self) 0).
  - now rewrite Z.sub_0_r.
  - intros i b Hi. now rewrite (Hinv i b Hi).
Qed.

Lemma serial_head (self : Blockchain) :
  serial self ->
  exists (genesis : Block) (rest : list Block),
    chain self = genesis :: rest
    /\ Block.height genesis = 0
    /\ Block.previousBlockHash genesis = None.
Proof.
  induction 1 as [now | self now block self' block' added _ IH Hadd].
  - rewrite Blockchain_new_eq. cbn [chain]. eexists; eexists.
    split; [reflexivity|]. rewrite finalized_eq. split; reflexivity.
  - destruct IH as (genesis & rest & Hchain & Hh & Hp).
    rewrite _addBlock_eq in Hadd. cbv zeta in Hadd.
    destruct (Block_validate (finalized now block self)); [|discriminate].
    injection Hadd as <- _ _. cbn [chain]. rewrite Hchain.
    exists genesis, (rest ++ [finalized now block self]). now repeat split.
Qed.

(** X3.  After appends that ran one at a time, the first block has height 0 and
    no previous hash, and every later block carries the hash of the block
    before it and the next height. *)
Theorem chain_is_linked (self : Blockchain) :
  serial self ->
  (exists (genesis : Block) (rest : list Block),
      chain self = genesis :: rest
      /\ Block.height genesis = 0
      /\ Block.previousBlockHash genesis = None)
  /\ forall (i : nat) (prev block : Block),
       nth_error (chain self) i = Some prev ->
       nth_error (chain self) (Datatypes.S i) = Some block ->
       Block.previousBlockHash block = Block.hash prev
       /\ Block.height block = Block.height prev + 1.
Proof.
  intro Hr. split; [now apply serial_head|].
  intros i prev block Hprev Hblock. split.
  - now apply (serial_linked self Hr i).
  - rewrite (serial_heights self Hr _ _ Hprev), (serial_heights self Hr _ _ Hblock).
    lia.
Qed.

(** X4.  On the chains the class builds, the hash stored in every block is
    the digest of the serialization of the block's other fields: every
    block passes [validate()]. *)
Theorem stored_hashes_are_content_hashes (self : Blockchain) :
  reachable self ->
  forall block : Block,
    In block (chain self) ->
    Block.hash block = Some (Block_contentHash block)
    /\ Block_validate block = true.
Proof.
  intros Hr block Hin.
  destruct (reachable_ok self Hr) as (_ & _ & Hvalid).
  pose proof (Hvalid block Hin) as Hv.
  split; [|exact Hv]. now apply strict_eq_true.
Qed.

(** A hash that some block of the chain has is found by the lookup. *)
Lemma lookup_finds_hash (self : Blockchain) (hash : option string) (prev : Block) :
  In prev (chain self) ->
  Block.hash prev = hash ->
  exists found : Block,
    getBlockByHash self hash = Some found
    /\ In found (chain self)
    /\ Block.hash found = hash.
Proof.
  intros Hin Hhash. unfold getBlockByHash.
  destruct (find _ (chain self)) as [found|] eqn:Hfind.
  - apply find_some in Hfind. destruct Hfind as [Hfin Heq].
    apply strict_eq_true in Heq. exists found. now repeat split.
  - pose proof (find_none _ _ Hfind prev Hin) as Hno.
    cbv beta in Hno. rewrite Hhash, strict_eq_refl in Hno. discriminate.
Qed.

(** X5.  After appends that ran one at a time, looking up the [previousBlockHash]
    of a block after the first finds a block that has the hash of its
    predecessor. *)
Theorem predecessor_found_by_hash (self : Blockchain) :
  serial self ->
  forall (i : nat) (prev block : Block),
    nth_error (chain self) i = Some prev ->
    nth_error (chain self) (Datatypes.S i) = Some block ->
    exists found : Block,
      getBlockByHash self (Block.previousBlockHash block) = Some found
      /\ In found (chain self)
      /\ Block.hash found = Block.hash prev.
Proof.
  intros Hr i prev block Hprev Hblock.
  rewrite (serial_linked self Hr i prev block Hprev Hblock).
  now apply (lookup_finds_hash self (Block.hash prev) prev (nth_error_In _ _ Hprev)).
Qed.

(** X6.  After an append that was resolved, the new block is found at the
    height that was the length of the chain, the lookups by height below it
    give what they gave, and [getChainHeight()] has grown by one. *)
Theorem lookup_after_append (self self' : Blockchain) (now : Z)
  (block block' added : Block) :
  reachable self ->
  _addBlock now block self = (self', block', Resolved added) ->
  getBlockByHeight self' (Z.of_nat (List.length (chain self))) = Some block'
  /\ (forall h : Z, h < Z.of_nat (List.length (chain self)) ->
        getBlockByHeight self' h = getBlockByHeight self h)
  /\ getChainHeight self' = getChainHeight self + 1.
Proof.
  intros Hr Hadd.
  destruct (reachable_ok self Hr) as (Hh & Hidx & _).
  rewrite _addBlock_eq in Hadd. cbv zeta in Hadd.
  destruct (Block_validate (finalized now block self)); [|discriminate].
  injection Hadd as <- <- _.
  assert (Hnew : Block.height (finalized now block self)
                 = Z.of_nat (List.length (chain self))).
  { rewrite finalized_eq. cbn [Block.height Block.set_hash].
    now pose proof (linked_fields now block self) as (H0 & _). }
  unfold getBlockByHeight. cbn [chain].
  split; [|split].
  - rewrite filter_app, (filter_none _ (chain self)).
    + cbn [filter app]. now rewrite Hnew, Z.eqb_refl.
    + intros b Hb. apply In_nth_error in Hb. destruct Hb as [i Hi].
      pose proof (Hidx i b Hi) as Hle.
      assert (Hsome : nth_error (chain self) i <> None) by congruence.
      apply nth_error_Some in Hsome.
      destruct (Z.eqb_spec (Block.height b) (Z.of_nat (List.length (chain self))));
        [lia | reflexivity].
  - intros h Hlt. rewrite filter_app. cbn [filter]. rewrite Hnew.
    destruct (Z.eqb_spec (Z.of_nat (List.length (chain self))) h); [lia|].
    now rewrite app_nil_r.
  - unfold getChainHeight. cbn [height]. rewrite Hh, length_app. cbn. lia.
Qed.

(** X7.  [_addBlock] ends in one of two ways: resolved with the block,
    which is then the last of the chain, or rejected with "Block is invalid"
    and the object untouched; it never reports an invalid chain and never
    leaves its promise pending.  A block whose hash is unset when handed
    over is always appended, whatever the chain holds. *)
Theorem _addBlock_outcomes (now : Z) (block : Block) (self : Blockchain) :
  (snd (_addBlock now block self) = Resolved (finalized now block self)
   /\ chain (fst (fst (_addBlock now block self)))
      = chain self ++ [finalized now block self]
   /\ height (fst (fst (_addBlock now block self)))
      = Z.of_nat (List.length (chain self)) + 1
   \/ snd (_addBlock now block self)
      = Rejected ("Block is invalid " ++ show (Block.hash (finalized now block self)))%string
      /\ fst (fst (_addBlock now block self)) = self)
  /\ (Block.hash block = None ->
      snd (_addBlock now block self) = Resolved (finalized now block self)).
Proof.
  rewrite _addBlock_eq. cbv zeta.
  pose proof (finalized_valid now block self) as Hfresh.
  destruct (Block_validate (finalized now block self)); cbn [fst snd chain height].
  - split; [left | reflexivity].
    repeat split. rewrite length_app. cbn. lia.
  - split; [right; now split|].
    intro Hnone. specialize (Hfresh Hnone). discriminate.
Qed.

(** X8.  The genesis block is created once: on every chain the class
    builds, [initializeChain()] changes nothing. *)
Theorem initializeChain_once (self : Blockchain) :
  reachable self -> forall now : Z, initializeChain now self = self.
Proof.
  intros Hr now. unfold initializeChain.
  destruct (reachable_ok self Hr) as (Hh & _).
  destruct (Z.eqb_spec (height self) (-1)); [lia | reflexivity].
Qed.


End ChainFacts.

(** ** The ownership flow *)

Section OwnershipFacts.

Context {ext : Externals}.

(** X10.  The current time that [submitStar] compares is the clock's
    milliseconds divided by a thousand, rounded towards zero; while the clock
    is less than a thousand milliseconds away from the epoch it is not a
    number. *)
Theorem submitStar_clock_in_seconds (now : Z) :
  current_time now = if Z.abs now <? 1000 then None else Some (Z.quot now 1000).
Proof. exact (current_time_eq now). Qed.

(** X11.  The message issued for an address that holds no colon has three
    components, the address, the clock in seconds and "starRegistry"; the
    time that [submitStar] reads back from it is the time at which it was
    issued. *)
Theorem issued_message_time (now : Z) (address : string) :
  JS.split ":" address = [address] ->
  JS.split ":" (requestMessageOwnershipVerification now address)
  = [address; seconds_string now; "starRegistry"]
  /\ message_time (requestMessageOwnershipVerification now address)
     = current_time now.
Proof.
  intro Haddr. pose proof (requestMessage_pieces now address Haddr) as Hp.
  split; [exact Hp|].
  unfold message_time, current_time. now rewrite Hp.
Qed.

(** X12.  A message issued when the clock read [issued] and submitted when
    it reads [now], both at least a second after the epoch, is refused for
    its age exactly when the two clocks, in whole seconds, are more than
    300000 apart. *)
Theorem issued_message_expiry (issued now now' : Z)
  (address signature star : string) (self : Blockchain) :
  JS.split ":" address = [address] ->
  1000 <= issued ->
  1000 <= now ->
  (snd (submitStar now now' address
          (requestMessageOwnershipVerification issued address) signature star self)
   = Rejected "More than 5 minutes have elapsed"
   <-> now / 1000 - issued / 1000 > 300000).
Proof.
  intros Haddr Hissued Hnow.
  rewrite submitStar_expired_iff.
  unfold message_time. rewrite (requestMessage_pieces issued address Haddr).
  change (JS.parseInt (JS.index1_ToString [address; seconds_string issued; "starRegistry"]))
    with (current_time issued).
  rewrite !current_time_eq.
  destruct (Z.ltb_spec (Z.abs now) 1000); [lia|].
  destruct (Z.ltb_spec (Z.abs issued) 1000); [lia|].
  rewrite !Z.quot_div_nonneg by lia.
  split.
  - intros (cur & t & Hc & Ht & Hgt). injection Hc as <-. injection Ht as <-. exact Hgt.
  - intro Hgt. eexists; eexists. repeat split. exact Hgt.
Qed.

(** X13.  [submitStar] changes the object only when its promise is
    resolved: the block it resolves with is then the last of the chain,
    holds the encoded record of the four arguments, and the signature has
    verified; in every other outcome the chain and the height are what they
    were. *)
Theorem submitStar_changes_only_on_success (now now' : Z)
  (address message signature star : string) (self : Blockchain) :
  (forall block : Block,
      snd (submitStar now now' address message signature star self) = Resolved block ->
      chain (fst (submitStar now now' address message signature star self))
      = chain self ++ [block]
      /\ height (fst (submitStar now now' address message signature star self))
         = Z.of_nat (List.length (chain self)) + 1
      /\ Block.body block = encode (StarData address message signature star)
      /\ Block.height block = Z.of_nat (List.length (chain self))
      /\ Block.time block = seconds_string now'
      /\ bitcoinMessage_verify message address signature = Some true)
  /\ ((forall block : Block,
          snd (submitStar now now' address message signature star self) <> Resolved block) ->
      fst (submitStar now now' address message signature star self) = self).
Proof.
  rewrite submitStar_eq.
  destruct (JS.diff_gt _ _ _); [split; [discriminate | reflexivity]|].
  unfold verify_and_add.
  destruct (bitcoinMessage_verify message address signature) as [[|]|];
    try (split; [discriminate | reflexivity]).
  cbv zeta. cbn [fst snd chain height].
  set (b := finalized now' _ self).
  split.
  - intros block Hb. injection Hb as <-.
    pose proof (linked_fields now' (Block_new (StarData address message signature star)) self)
      as (Hh & Ht & _ & Hbody).
    unfold b. rewrite finalized_eq. cbn [Block.body Block.height Block.time Block.set_hash].
    rewrite length_app. cbn [List.length].
    repeat split; try assumption; lia.
  - intro Hnever. exfalso. now apply (Hnever b).
Qed.

(** X14.  The promise of [submitStar] is resolved exactly when the age
    test does not fire and the signature verifies: the block it creates is
    never refused by [_addBlock].  It is rejected only with one of its own
    two errors. *)
Theorem submitStar_resolves_iff (now now' : Z)
  (address message signature star : string) (self : Blockchain) :
  ((exists block : Block,
       snd (submitStar now now' address message signature star self) = Resolved block)
   <-> JS.diff_gt (current_time now) (message_time message) 300000 = false
       /\ bitcoinMessage_verify message address signature = Some true)
  /\ forall e : string,
       snd (submitStar now now' address message signature star self) = Rejected e ->
       e = "More than 5 minutes have elapsed" \/ e = "Failed to verify message".
Proof.
  rewrite submitStar_eq. unfold verify_and_add.
  destruct (JS.diff_gt _ _ _).
  - split.
    + split; [intros [block H]; discriminate | intros [H _]; discriminate].
    + intros e H. injection H as <-. now left.
  - destruct (bitcoinMessage_verify message address signature) as [[|]|];
      cbv zeta; cbn [snd].
    + split; [split; [now split | intros _; eexists; reflexivity] | discriminate].
    + split.
      * split; [intros [block H]; discriminate | intros [_ H]; discriminate].
      * intros e H. injection H as <-. now right.
    + split; [|discriminate].
      split; [intros [block H]; discriminate | intros [_ H]; discriminate].
Qed.

(** X15.  A star that was submitted with success is returned to its owner:
    when the stored record decodes to what was encoded, a caller awaiting
    [getStarsByWalletAddress] afterwards gets, for the submitting address,
    the stars it got before followed by the new star, and for every other
    address what it got before. *)
Theorem submitStar_then_getStars (now now' : Z)
  (address message signature star owner : string) (self : Blockchain) (block : Block) :
  decode (encode (StarData address message signature star))
  = Some (StarData address message signature star) ->
  snd (submitStar now now' address message signature star self) = Resolved block ->
  exists before : list string,
    await_getStarsByWalletAddress self owner = Some before
    /\ await_getStarsByWalletAddress
         (fst (submitStar now now' address message signature star self)) owner
       = Some (before ++ if String.eqb address owner then [star] else []).
Proof.
  intros Hround Hres.
  pose proof (submitStar_eq now now' address message signature star self) as E.
  exists (flat_map (star_if_owned owner) (chain self)).
  rewrite !await_getStarsByWalletAddress_eq. split; [reflexivity|].
  rewrite E in Hres |- *.
  destruct (JS.diff_gt _ _ _); [discriminate|].
  unfold verify_and_add in *.
  destruct (bitcoinMessage_verify message address signature) as [[|]|];
    try discriminate.
  cbv zeta in *. cbn [fst snd chain] in *.
  rewrite flat_map_app. cbn [flat_map]. rewrite app_nil_r.
  f_equal. f_equal.
  unfold star_if_owned, Block_getBData.
  rewrite finalized_eq. cbn [Block.body Block.set_hash].
  pose proof (linked_fields now' (Block_new (StarData address message signature star)) self)
    as (_ & _ & _ & Hbody).
  rewrite Hbody. cbn [Block.body Block_new]. rewrite Hround. reflexivity.
Qed.

(** X16.  On every chain, the array that [getStarsByWalletAddress] resolves
    its promise with is empty at that moment; the caller that awaits the
    promise finds in it the stars of every block, whatever its height, whose
    payload decodes to a record of that address, in chain order. *)
Theorem getStarsByWalletAddress_on_every_chain (self : Blockchain) (address : string) :
  stars_when_resolved self address = []
  /\ await_getStarsByWalletAddress self address
     = Some (flat_map (star_if_owned address) (chain self)).
Proof.
  split; [apply stars_when_resolved_nil | apply await_getStarsByWalletAddress_eq].
Qed.

End OwnershipFacts.

(** ** Whole-chain validation after appends that ran one at a time *)

Section ValidationFacts.

Context {ext : Externals}.

(** After appends that ran one at a time, the callbacks of [validateChain] go
    past their first line for every block but the first. *)
Lemma serial_examined (self : Blockchain) :
  serial self -> examined (chain self) = tl (chain self).
Proof.
  intro Hr. pose proof (serial_heights self Hr) as Hinv.
  destruct (chain self) as [|genesis rest]; [reflexivity|].
  unfold examined. cbn [filter tl].
  rewrite (Hinv 0%nat genesis eq_refl). cbn [Z.of_nat Z.leb Z.compare negb].
  apply filter_all. intros b Hb.
  apply In_nth_error in Hb. destruct Hb as [i Hi].
  rewrite (Hinv (Datatypes.S i) b Hi).
  destruct (Z.leb_spec (Z.of_nat (Datatypes.S i)) 0); [lia | reflexivity].
Qed.

(** After appends that ran one at a time, the lookup of a block's
    [previousBlockHash] finds a block with that hash. *)
Lemma serial_found_differs (self : Blockchain) :
  serial self ->
  forall block : Block,
    In block (tl (chain self)) ->
    found_differs self block
    = negb (strict_eq (Block.previousBlockHash block) (Block.hash block)).
Proof.
  intros Hr block Hin.
  apply In_nth_error in Hin. destruct Hin as [i Hi].
  assert (Hb : nth_error (chain self) (Datatypes.S i) = Some block).
  { destruct (chain self); [now destruct i | exact Hi]. }
  destruct (nth_error (chain self) i) as [prev|] eqn:Hprev.
  - destruct (lookup_finds_hash self (Block.hash prev) prev
                (nth_error_In _ _ Hprev) eq_refl) as (found & Hfound & _ & Hh).
    pose proof (serial_linked self Hr i prev block Hprev Hb) as Hlink.
    unfold found_differs. rewrite Hlink, Hfound, Hh. reflexivity.
  - apply nth_error_None in Hprev.
    assert (Hsome : nth_error (chain self) (Datatypes.S i) <> None) by congruence.
    apply nth_error_Some in Hsome. lia.
Qed.

(** X17.  After appends that ran one at a time, once the callbacks of
    [validateChain] have run [errorLog] holds no "Invalid block" entry, and
    one "Invalid previous block" entry for every block after the first whose
    own hash is not its [previousBlockHash], in chain order. *)
Theorem validateChain_errorLog_after_serial_appends (self : Blockchain) :
  serial self ->
  validateChain_errorLog self
  = map invalid_previous_msg
      (filter (fun block =>
                 negb (strict_eq (Block.previousBlockHash block) (Block.hash block)))
         (tl (chain self))).
Proof.
  intro Hr. unfold validateChain_errorLog.
  destruct (validateChain_final_closed self) as (_ & _ & ->).
  rewrite (serial_examined self Hr).
  assert (Hvalid : forall b : Block, In b (tl (chain self)) -> Block_validate b = true).
  { intros b Hb. apply (serial_valid self Hr).
    destruct (chain self); [exact Hb | now right]. }
  rewrite (filter_none (fun block => negb (Block_validate block)))
    by (intros b Hb; now rewrite (Hvalid b Hb)).
  rewrite (filter_all Block_validate) by exact Hvalid.
  cbn [map app]. f_equal.
  apply filter_ext_in. intros b Hb. now apply serial_found_differs.
Qed.

End ValidationFacts.

(** ** The writes of [_addBlock] *)

Section WriteFacts.

Context {ext : Externals}.

(** X18.  [_addBlock] writes to the block it is handed and to no other:
    every other object of the store holds afterwards what it held, also when
    the promise is rejected; the block handed over, resolved or rejected,
    has its height set to the length the chain had, its time to the clock in
    seconds, and a hash.  When the promise is resolved it is resolved with
    the reference handed over, and that reference is what was pushed. *)
Theorem _addBlock_writes_only_its_block (now : Z) (r : nat) (st : Store) :
  (forall r' : nat, r' <> r ->
     deref (fst (_addBlock_object now r st)) r' = deref st r')
  /\ List.length (objects (fst (_addBlock_object now r st))) = List.length (objects st)
  /\ ((r < List.length (objects st))%nat ->
      Block.height (deref (fst (_addBlock_object now r st)) r)
      = Z.of_nat (List.length (chain_refs st))
      /\ Block.time (deref (fst (_addBlock_object now r st)) r) = seconds_string now
      /\ Block.hash (deref (fst (_addBlock_object now r st)) r) <> None)
  /\ (forall r0 : nat,
        snd (_addBlock_object now r st) = Resolved r0 ->
        r0 = r
        /\ chain_refs (fst (_addBlock_object now r st)) = chain_refs st ++ [r]
        /\ height_field (fst (_addBlock_object now r st))
           = Z.of_nat (List.length (chain_refs st)) + 1).
Proof.
  rewrite _addBlock_object_eq. cbv zeta.
  destruct (finalize_object_refs now r st) as [Hrefs Hheight].
  assert (Hfin : (forall r' : nat, r' <> r -> deref (finalize_object now r st) r' = deref st r')
                 /\ List.length (objects (finalize_object now r st))
                    = List.length (objects st)
                 /\ ((r < List.length (objects st))%nat ->
                     Block.height (deref (finalize_object now r st) r)
                     = Z.of_nat (List.length (chain_refs st))
                     /\ Block.time (deref (finalize_object now r st) r) = seconds_string now
                     /\ Block.hash (deref (finalize_object now r st) r) <> None)).
  { unfold finalize_object. cbv zeta.
    set (st1 := write r (Block.set_height _) st).
    set (st2 := write r (Block.set_time _) st1).
    set (st3 := if getChainHeight (view st2) >? 0 then _ else st2).
    assert (O2 : forall r', r' <> r -> deref st2 r' = deref st r').
    { intros r' Hne. unfold st2, st1, deref, write. cbn [objects].
      rewrite !nth_update_nth_other by congruence. reflexivity. }
    assert (L2 : List.length (objects st2) = List.length (objects st)).
    { unfold st2, st1, write. cbn [objects]. now rewrite !length_update_nth. }
    assert (D2 : (r < List.length (objects st))%nat ->
                 Block.height (deref st2 r) = Z.of_nat (List.length (chain_refs st))
                 /\ Block.time (deref st2 r) = seconds_string now).
    { intro Hlt. unfold st2.
      rewrite deref_write_same by (now apply write_in_range).
      unfold st1. rewrite deref_write_same by exact Hlt. split; reflexivity. }
    assert (H3 : (forall r', r' <> r -> deref st3 r' = deref st r')
                 /\ List.length (objects st3) = List.length (objects st)
                 /\ ((r < List.length (objects st))%nat ->
                     Block.height (deref st3 r) = Z.of_nat (List.length (chain_refs st))
                     /\ Block.time (deref st3 r) = seconds_string now)).
    { unfold st3.
      destruct (getChainHeight (view st2) >? 0);
        [|split; [exact O2 | split; [exact L2 | exact D2]]].
      destruct (getBlockByHeight (view st2) _) as [prevBlock|];
        [|split; [exact O2 | split; [exact L2 | exact D2]]].
      split; [|split].
      - intros r' Hne. unfold deref, write. cbn [objects].
        rewrite nth_update_nth_other by congruence. now apply O2.
      - unfold write. cbn [objects]. now rewrite length_update_nth.
      - intro Hlt. rewrite deref_write_same by lia.
        destruct (D2 Hlt) as [Hh Ht]. now split. }
    destruct H3 as (O3 & L3 & D3).
    split; [|split].
    - intros r' Hne. unfold deref, write. cbn [objects].
      rewrite nth_update_nth_other by congruence. now apply O3.
    - unfold write. cbn [objects]. now rewrite length_update_nth.
    - intro Hlt. rewrite deref_write_same by lia.
      destruct (D3 Hlt) as [Hh Ht]. repeat split; try assumption. discriminate. }
  destruct Hfin as (Hother & Hlen & Hown).
  destruct (Block_validate (deref (finalize_object now r st) r)); cbn [fst snd].
  - split; [exact Hother|]. split; [exact Hlen|]. split; [exact Hown|].
    intros r0 Hres. injection Hres as <-. split; [reflexivity|].
    cbn [chain_refs height_field]. rewrite Hrefs, length_app. cbn [List.length].
    split; [reflexivity | lia].
  - split; [exact Hother|]. split; [exact Hlen|]. split; [exact Hown|].
    discriminate.
Qed.

End WriteFacts.

(** ** The properties on the sample chains *)

#[local] Existing Instance Sample.externals.

Lemma Sha256_digest_length (text : string) :
  String.length (Sha256.digest text) = 64%nat.
Proof. reflexivity. Qed.

Lemma genesis_only_chain :
  map Block.height (chain Examples.genesis_only) = [0]
  /\ map Block.previousBlockHash (chain Examples.genesis_only) = [None]
  /\ height Examples.genesis_only = 1.
Proof. vm_compute. repeat split. Qed.

Lemma submit_serial (now : Z) (address star : string) (self : Blockchain) :
  serial self -> serial (fst (Examples.submit now address star self)).
Proof.
  intro Hr. unfold Examples.submit. rewrite submitStar_eq.
  destruct (JS.diff_gt _ _ _); [exact Hr|].
  unfold verify_and_add.
  destruct (bitcoinMessage_verify _ _ _) as [[|]|]; try exact Hr.
  cbv zeta. cbn [fst].
  set (block := Block_new (StarData address _ _ star)).
  apply (serial_addBlock self now block _
           (finalized now block self) (finalized now block self) Hr).
  rewrite _addBlock_eq. cbv zeta.
  rewrite (finalized_valid now block self eq_refl). reflexivity.
Qed.

Lemma one_star_serial : serial Examples.one_star.
Proof. apply submit_serial, serial_new. Qed.

Lemma two_stars_serial : serial Examples.two_stars.
Proof. apply submit_serial, one_star_serial. Qed.

Lemma three_stars_serial : serial Examples.three_stars.
Proof. apply submit_serial, two_stars_serial. Qed.

Lemma genesis_only_reachable : reachable Examples.genesis_only.
Proof. exact (serial_reachable _ (serial_new Examples.t0)). Qed.

Lemma one_star_reachable : reachable Examples.one_star.
Proof. exact (serial_reachable _ one_star_serial). Qed.

Lemma two_stars_reachable : reachable Examples.two_stars.
Proof. exact (serial_reachable _ two_stars_serial). Qed.

Lemma three_stars_reachable : reachable Examples.three_stars.
Proof. exact (serial_reachable _ three_stars_serial). Qed.

Lemma three_stars_chain :
  map Block.height (chain Examples.three_stars) = [0; 1; 2; 3]
  /\ map Block_getBData (chain Examples.three_stars)
     = [Some (GenesisData "Genesis Block");
        Some (StarData "X" (Examples.challenge "X")
                (Sample.sign (Examples.challenge "X") "X") "star 1");
        Some (StarData "Y" (Examples.challenge "Y")
                (Sample.sign (Examples.challenge "Y") "Y") "star 2");
        Some (StarData "X" (Examples.challenge "X")
                (Sample.sign (Examples.challenge "X") "X") "star 3")].
Proof. vm_compute. split; reflexivity. Qed.

(** Witness of C2: the chain after the genesis block and two stars. *)
Lemma validateChain_reports_no_error_witness :
  reachable Examples.two_stars
  /\ validateChain_settled Examples.two_stars = Resolved true.
Proof.
  split; [exact two_stars_reachable|].
  exact (validateChain_reports_no_error Examples.two_stars two_stars_reachable).
Defined.

(** Counterexample to C4 as stated: once construction has completed the
    chain holds one block and [getChainHeight()] resolves with 1, not with
    [length - 1 = 0]. *)
Lemma getChainHeight_after_construction :
  List.length (chain Examples.genesis_only) = 1%nat
  /\ getChainHeight Examples.genesis_only = 1
  /\ getChainHeight Examples.genesis_only
     <> Z.of_nat (List.length (chain Examples.genesis_only)) - 1.
Proof.
  vm_compute. repeat split. discriminate.
Qed.

(** Witness of C4 as amended. *)
Lemma getChainHeight_is_length_witness :
  reachable Examples.one_star
  /\ getChainHeight Examples.one_star
     = Z.of_nat (List.length (chain Examples.one_star))
  /\ (forall now : Z, getChainHeight (Blockchain_new now) = 1)
  /\ (serial Examples.one_star ->
      exists newest : Block,
        nth_error (chain Examples.one_star)
          (List.length (chain Examples.one_star) - 1) = Some newest
        /\ getChainHeight Examples.one_star = Block.height newest + 1).
Proof.
  split; [exact one_star_reachable|].
  exact (getChainHeight_is_length Examples.one_star one_star_reachable).
Defined.

Lemma stale_store_chain :
  ~ In 1%nat (chain_refs Examples.stale_store)
  /\ view Examples.stale_store = Examples.genesis_only.
Proof.
  split; [|vm_compute; reflexivity].
  simpl. intros [H|[]]. discriminate.
Qed.

(** Witness of C8: an object that already carries a hash, and is not in
    the chain, fails its validation once finalized. *)
Lemma _addBlock_invalid_block_rejected_witness :
  Block_validate
    (deref (fst (_addBlock_object Examples.t0 1 Examples.stale_store)) 1) = false
  /\ snd (_addBlock_object Examples.t0 1 Examples.stale_store)
     = Rejected
         ("Block is invalid "
          ++ show (Block.hash
                     (deref (fst (_addBlock_object Examples.t0 1 Examples.stale_store)) 1)))%string
  /\ chain_refs (fst (_addBlock_object Examples.t0 1 Examples.stale_store))
     = chain_refs Examples.stale_store
  /\ height_field (fst (_addBlock_object Examples.t0 1 Examples.stale_store))
     = height_field Examples.stale_store
  /\ view (fst (_addBlock_object Examples.t0 1 Examples.stale_store))
     = view Examples.stale_store.
Proof.
  assert (H : Block_validate
                (deref (fst (_addBlock_object Examples.t0 1 Examples.stale_store)) 1)
              = false)
    by (vm_compute; reflexivity).
  split; [exact H|].
  destruct (_addBlock_invalid_block_rejected Examples.t0 1 Examples.stale_store H)
    as (Hrej & Hrefs & Hheight & Hview).
  split; [exact Hrej|].
  split; [exact Hrefs|].
  split; [exact Hheight|].
  exact (Hview (proj1 stale_store_chain)).
Defined.

(** Witness of C9: the first star submitted to the sample chain. *)
Lemma _addBlock_hash_commits_witness :
  Block.hash Examples.first_star_block = None
  /\ (forall text : string, String.length (SHA256 text) = 64%nat)
  /\ Block.height
       (finalized (Examples.t0 + 60000) Examples.first_star_block Examples.genesis_only)
     = Z.of_nat (List.length (chain Examples.genesis_only))
  /\ Block.time
       (finalized (Examples.t0 + 60000) Examples.first_star_block Examples.genesis_only)
     = seconds_string (Examples.t0 + 60000)
  /\ Block.previousBlockHash
       (finalized (Examples.t0 + 60000) Examples.first_star_block Examples.genesis_only)
     = (if getChainHeight Examples.genesis_only >? 0
        then match getBlockByHeight Examples.genesis_only
                     (Z.of_nat (List.length (chain Examples.genesis_only)) - 1) with
             | Some prevBlock => Block.hash prevBlock
             | None => Block.previousBlockHash Examples.first_star_block
             end
        else Block.previousBlockHash Examples.first_star_block)
  /\ Block.body
       (finalized (Examples.t0 + 60000) Examples.first_star_block Examples.genesis_only)
     = Block.body Examples.first_star_block
  /\ exists digest : string,
       Block.hash
         (finalized (Examples.t0 + 60000) Examples.first_star_block Examples.genesis_only)
       = Some digest
       /\ digest
          = SHA256 (JSON_stringify
                      (Block.set_hash None
                         (finalized (Examples.t0 + 60000) Examples.first_star_block
                            Examples.genesis_only)))
       /\ (4 * Z.of_nat (String.length digest) = 256).
Proof.
  split; [reflexivity|].
  split; [exact Sha256_digest_length|].
  exact (_addBlock_hash_commits (Examples.t0 + 60000) Examples.first_star_block
           Examples.genesis_only eq_refl Sha256_digest_length).
Defined.

Lemma constructed_built : built Examples.constructed.
Proof.
  unfold Examples.constructed.
  do 3 apply built_resume. apply built_new.
Qed.

Lemma overlapped_built : built Examples.overlapped.
Proof.
  unfold Examples.overlapped.
  do 8 apply built_resume.
  unfold Examples.two_submitted.
  do 2 apply built_submitStar_start.
  exact constructed_built.
Qed.

Lemma early_built : built Examples.early.
Proof.
  unfold Examples.early.
  do 6 apply built_resume.
  unfold Examples.early_submitted.
  apply built_submitStar_start. apply built_new.
Qed.

(** C10, on the code.  Two submissions in one tick, on the chain that
    holds the genesis block, both read [chain.length] (line 69) before
    either pushes (line 88): both promises are resolved, and the chain holds
    two blocks of height 1, the second at position 2.  A submission in the
    tick of [new Blockchain()] is stored with height 0 behind the genesis
    block. *)
Theorem overlapping_appends_share_a_height :
  built Examples.overlapped
  /\ List.length (inflight Examples.two_submitted) = 2%nat
  /\ inflight Examples.overlapped = []
  /\ map is_resolved (outcomes Examples.overlapped) = [true; true; true]
  /\ map Block.height (chain (object Examples.overlapped)) = [0; 1; 1]
  /\ height (object Examples.overlapped) = 3
  /\ ~ heights_are_indices (chain (object Examples.overlapped))
  /\ built Examples.early
  /\ map is_resolved (outcomes Examples.early) = [true; true]
  /\ map Block.height (chain (object Examples.early)) = [0; 0].
Proof.
  split; [exact overlapped_built|].
  split; [vm_compute; reflexivity|].
  split; [vm_compute; reflexivity|].
  split; [vm_compute; reflexivity|].
  assert (Hheights : map Block.height (chain (object Examples.overlapped)) = [0; 1; 1])
    by (vm_compute; reflexivity).
  split; [exact Hheights|].
  split; [vm_compute; reflexivity|].
  split.
  - intro Hinv.
    assert (Hlast : exists block : Block,
               nth_error (chain (object Examples.overlapped)) 2 = Some block
               /\ Block.height block = 1)
      by (eexists; split; vm_compute; reflexivity).
    destruct Hlast as (block & Hb & Hh).
    rewrite (Hinv 2%nat block Hb) in Hh. discriminate Hh.
  - split; [exact early_built|].
    split; vm_compute; reflexivity.
Qed.

(** On the chain after the genesis block and three stars. *)
Lemma heights_are_array_indices_witness :
  serial Examples.three_stars
  /\ heights_are_indices (chain Examples.three_stars)
  /\ forall (now : Z) (block : Block),
       heights_are_indices
         (chain (fst (fst (_addBlock now block Examples.three_stars)))).
Proof.
  split; [exact three_stars_serial|].
  exact (heights_are_array_indices Examples.three_stars three_stars_serial).
Defined.

(** C5, on the code.  A message with no second component and a message
    whose second component is not a number, each with a signature that
    verifies, are not refused: the parsed time is NaN, the elapsed-time test
    of line 144 is false, and a block is created, appended and resolved. *)
Theorem submitStar_accepts_unparsed_time :
  message_time "X" = None
  /\ message_time "X:abc:starRegistry" = None
  /\ (exists block : Block,
        snd (submitStar Examples.t0 Examples.t0 "X" "X"
               (Sample.sign "X" "X") "star" Examples.genesis_only)
        = Resolved block
        /\ Block_getBData block
           = Some (StarData "X" "X" (Sample.sign "X" "X") "star"))
  /\ (exists block : Block,
        snd (submitStar Examples.t0 Examples.t0 "X" "X:abc:starRegistry"
               (Sample.sign "X:abc:starRegistry" "X") "star" Examples.genesis_only)
        = Resolved block
        /\ Block_getBData block
           = Some (StarData "X" "X:abc:starRegistry"
                     (Sample.sign "X:abc:starRegistry" "X") "star"))
  /\ List.length
       (chain (fst (submitStar Examples.t0 Examples.t0 "X" "X"
                      (Sample.sign "X" "X") "star" Examples.genesis_only)))
     = 2%nat.
Proof.
  cbv zeta.
  split; [reflexivity|]. split; [reflexivity|].
  split; [eexists; split; vm_compute; reflexivity|].
  split; [eexists; split; vm_compute; reflexivity|].
  vm_compute; reflexivity.
Qed.

(** The same message with a signature that does not verify. *)
Lemma submitStar_unparsed_time_witness :
  message_time "X:abc:starRegistry" = None
  /\ submitStar Examples.t0 Examples.t0 "X" "X:abc:starRegistry" "forged" "star"
       Examples.genesis_only
     = verify_and_add Examples.t0 "X" "X:abc:starRegistry" "forged" "star"
         Examples.genesis_only.
Proof.
  split; [reflexivity|].
  exact (submitStar_unparsed_time Examples.t0 Examples.t0 "X" "X:abc:starRegistry"
           "forged" "star" Examples.genesis_only eq_refl).
Defined.

Lemma submitStar_forged_signature :
  verify_and_add Examples.t0 "X" "X:abc:starRegistry" "forged" "star"
    Examples.genesis_only
  = (Examples.genesis_only, Rejected "Failed to verify message").
Proof. vm_compute. reflexivity. Qed.

(** Witness of C7: stars appended for "X", "Y", "X"; the query for "X". *)
Lemma getStarsByWalletAddress_returns_owned_stars_witness :
  (forall block : Block,
      In block (chain Examples.three_stars) -> Block.height block = 0 ->
      star_if_owned "X" block = [])
  /\ await_getStarsByWalletAddress Examples.three_stars "X"
     = Some (spec_getStarsByAddress "X" (chain Examples.three_stars)).
Proof.
  assert (Hround : decode (encode (GenesisData "Genesis Block"))
                   = Some (GenesisData "Genesis Block"))
    by (vm_compute; reflexivity).
  pose proof (serial_genesis_not_owned Examples.three_stars "X" Hround
                three_stars_serial) as H.
  split; [exact H|].
  exact (getStarsByWalletAddress_returns_owned_stars Examples.three_stars "X" H).
Defined.

(** The example of C7: exactly the two stars of "X", in insertion order;
    the array was still empty when the promise was resolved with it. *)
Lemma getStarsByWalletAddress_X_Y_X :
  await_getStarsByWalletAddress Examples.three_stars "X" = Some ["star 1"; "star 3"]
  /\ await_getStarsByWalletAddress Examples.three_stars "Y" = Some ["star 2"]
  /\ spec_getStarsByAddress "X" (chain Examples.three_stars) = ["star 1"; "star 3"]
  /\ stars_when_resolved Examples.three_stars "X" = [].
Proof. vm_compute. repeat split. Qed.

(** C3, on the code.  A challenge issued at [t0] and submitted 301 seconds
    later with a signature that verifies is not refused: the block is
    appended.  The two times are in seconds and are compared with 300000, so
    that the same submission is still accepted 300000 seconds later and first
    refused after 300001 seconds. *)
Lemma submitStar_301_seconds_accepted :
  message_time (Examples.challenge "X") = Some 1600000000
  /\ current_time (Examples.t0 + 301000) = Some 1600000301
  /\ (exists block : Block,
        snd (Examples.submit (Examples.t0 + 301000) "X" "star" Examples.genesis_only)
        = Resolved block)
  /\ (exists block : Block,
        snd (Examples.submit (Examples.t0 + 300000000) "X" "star" Examples.genesis_only)
        = Resolved block)
  /\ snd (Examples.submit (Examples.t0 + 300001000) "X" "star" Examples.genesis_only)
     = Rejected "More than 5 minutes have elapsed".
Proof.
  split; [reflexivity|]. split; [reflexivity|].
  split; [eexists; vm_compute; reflexivity|].
  split; [eexists; vm_compute; reflexivity|].
  vm_compute; reflexivity.
Qed.

(** C1, on the code.  On the chain the class builds from the genesis block
    and two stars, every block passes its own validation, every
    [previousBlockHash] is the hash of the block before it and the lookup
    finds that block; the callbacks nevertheless push an "Invalid previous
    block" entry for each block after the first, because the hash of the
    block found is compared with [block.hash].  On the chain whose second
    block names a predecessor that does not exist, the lookup fails and no
    entry is pushed. *)
Lemma validateChain_logs_linked_blocks :
  map Block_validate (chain Examples.two_stars) = [true; true; true]
  /\ map Block.previousBlockHash (chain Examples.two_stars)
     = None :: map Block.hash (removelast (chain Examples.two_stars))
  /\ map (fun block =>
            getBlockByHash Examples.two_stars (Block.previousBlockHash block))
         (tl (chain Examples.two_stars))
     = map Some (removelast (chain Examples.two_stars))
  /\ validateChain_errorLog Examples.two_stars
     = map invalid_previous_msg (tl (chain Examples.two_stars))
  /\ map Block_validate (chain Examples.unlinked) = [true; true]
  /\ map (fun block =>
            getBlockByHash Examples.unlinked (Block.previousBlockHash block))
         (tl (chain Examples.unlinked))
     = [None]
  /\ validateChain_errorLog Examples.unlinked = [].
Proof. vm_compute. repeat split. Qed.

(** C6, on the code.  On the chain whose last block was rewritten, that
    block fails its validation, yet the promise of [validateChain()] is
    resolved with [true] while [errorLog] is still empty; the callbacks fill
    the array afterwards, the invalid block ahead of the entry of the block
    before it. *)
Lemma validateChain_resolves_on_tampered_chain :
  map Block_validate (chain Examples.tampered) = [true; true; false]
  /\ validateChain_settled Examples.tampered = Resolved true
  /\ errorLog (fst (fst (validateChain Examples.tampered))) = []
  /\ validateChain_errorLog Examples.tampered
     = map invalid_block_msg (skipn 2 (chain Examples.tampered))
       ++ map invalid_previous_msg (firstn 1 (skipn 1 (chain Examples.tampered))).
Proof. vm_compute. repeat split. Qed.

(** Handing [_addBlock] the object that is already the first element of
    the chain: the promise is rejected, the array and the height are what
    they were, but the stored block has been overwritten and no longer passes
    its validation. *)
Lemma _addBlock_object_in_chain :
  view Examples.genesis_store = Examples.genesis_only
  /\ (exists e : string,
        snd (_addBlock_object (Examples.t0 + 1000) 0 Examples.genesis_store) = Rejected e)
  /\ chain_refs (fst (_addBlock_object (Examples.t0 + 1000) 0 Examples.genesis_store))
     = chain_refs Examples.genesis_store
  /\ height_field (fst (_addBlock_object (Examples.t0 + 1000) 0 Examples.genesis_store))
     = height_field Examples.genesis_store
  /\ map Block.height (chain Examples.genesis_only) = [0]
  /\ map Block.height
       (chain (view (fst (_addBlock_object (Examples.t0 + 1000) 0 Examples.genesis_store))))
     = [1]
  /\ map Block_validate
       (chain (view (fst (_addBlock_object (Examples.t0 + 1000) 0 Examples.genesis_store))))
     = [false].
Proof.
  split; [vm_compute; reflexivity|].
  split; [eexists; vm_compute; reflexivity|].
  vm_compute. repeat split.
Qed.

(** ** The further properties on the sample chains *)

Lemma first_star_appended :
  _addBlock (Examples.t0 + 60000) Examples.first_star_block Examples.genesis_only
  = (Examples.first_star_chain, Examples.first_star_stored,
     Resolved Examples.first_star_stored).
Proof. vm_compute. reflexivity. Qed.

Lemma first_star_submitted :
  snd (submitStar (Examples.t0 + 60000) (Examples.t0 + 60000) "X"
         (Examples.challenge "X") (Sample.sign (Examples.challenge "X") "X")
         "star 1" Examples.genesis_only)
  = Resolved Examples.first_star_stored.
Proof. vm_compute. reflexivity. Qed.

Lemma star_payload_decodes :
  decode (encode (StarData "X" (Examples.challenge "X")
                    (Sample.sign (Examples.challenge "X") "X") "star 1"))
  = Some (StarData "X" (Examples.challenge "X")
            (Sample.sign (Examples.challenge "X") "X") "star 1").
Proof. vm_compute. reflexivity. Qed.

(** Witness of X2: the chain after the genesis block and three stars. *)
Lemma getBlockByHeight_is_index_witness :
  heights_are_indices (chain Examples.three_stars)
  /\ forall h : Z,
       getBlockByHeight Examples.three_stars h
       = if h <? 0 then None else nth_error (chain Examples.three_stars) (Z.to_nat h).
Proof.
  split; [exact (serial_heights _ three_stars_serial)|].
  exact (getBlockByHeight_is_index Examples.three_stars
           (serial_heights _ three_stars_serial)).
Defined.

(** Witness of X3: the same chain. *)
Lemma chain_is_linked_witness :
  serial Examples.three_stars
  /\ (exists (genesis : Block) (rest : list Block),
         chain Examples.three_stars = genesis :: rest
         /\ Block.height genesis = 0
         /\ Block.previousBlockHash genesis = None)
  /\ forall (i : nat) (prev block : Block),
       nth_error (chain Examples.three_stars) i = Some prev ->
       nth_error (chain Examples.three_stars) (Datatypes.S i) = Some block ->
       Block.previousBlockHash block = Block.hash prev
       /\ Block.height block = Block.height prev + 1.
Proof.
  split; [exact three_stars_serial|].
  exact (chain_is_linked Examples.three_stars three_stars_serial).
Defined.

(** Witness of X4: the same chain. *)
Lemma stored_hashes_are_content_hashes_witness :
  reachable Examples.three_stars
  /\ forall block : Block,
       In block (chain Examples.three_stars) ->
       Block.hash block = Some (Block_contentHash block)
       /\ Block_validate block = true.
Proof.
  split; [exact three_stars_reachable|].
  exact (stored_hashes_are_content_hashes Examples.three_stars three_stars_reachable).
Defined.

(** Witness of X5: the same chain. *)
Lemma predecessor_found_by_hash_witness :
  serial Examples.three_stars
  /\ forall (i : nat) (prev block : Block),
       nth_error (chain Examples.three_stars) i = Some prev ->
       nth_error (chain Examples.three_stars) (Datatypes.S i) = Some block ->
       exists found : Block,
         getBlockByHash Examples.three_stars (Block.previousBlockHash block) = Some found
         /\ In found (chain Examples.three_stars)
         /\ Block.hash found = Block.hash prev.
Proof.
  split; [exact three_stars_serial|].
  exact (predecessor_found_by_hash Examples.three_stars three_stars_serial).
Defined.

(** Witness of X6: the first star appended to the genesis block. *)
Lemma lookup_after_append_witness :
  reachable Examples.genesis_only
  /\ _addBlock (Examples.t0 + 60000) Examples.first_star_block Examples.genesis_only
     = (Examples.first_star_chain, Examples.first_star_stored,
        Resolved Examples.first_star_stored)
  /\ getBlockByHeight Examples.first_star_chain
       (Z.of_nat (List.length (chain Examples.genesis_only)))
     = Some Examples.first_star_stored
  /\ (forall h : Z, h < Z.of_nat (List.length (chain Examples.genesis_only)) ->
        getBlockByHeight Examples.first_star_chain h
        = getBlockByHeight Examples.genesis_only h)
  /\ getChainHeight Examples.first_star_chain
     = getChainHeight Examples.genesis_only + 1.
Proof.
  split; [exact genesis_only_reachable|].
  split; [exact first_star_appended|].
  exact (lookup_after_append Examples.genesis_only Examples.first_star_chain
           (Examples.t0 + 60000) Examples.first_star_block Examples.first_star_stored
           Examples.first_star_stored genesis_only_reachable first_star_appended).
Defined.

(** Witness of X8: the chain after the genesis block and three stars. *)
Lemma initializeChain_once_witness :
  reachable Examples.three_stars
  /\ forall now : Z, initializeChain now Examples.three_stars = Examples.three_stars.
Proof.
  split; [exact three_stars_reachable|].
  exact (initializeChain_once Examples.three_stars three_stars_reachable).
Defined.

(** Witness of X11: the message issued to "X" at [t0]. *)
Lemma issued_message_time_witness :
  JS.split ":" "X" = ["X"]
  /\ JS.split ":" (requestMessageOwnershipVerification Examples.t0 "X")
     = ["X"; seconds_string Examples.t0; "starRegistry"]
  /\ message_time (requestMessageOwnershipVerification Examples.t0 "X")
     = current_time Examples.t0.
Proof.
  split; [reflexivity|].
  exact (issued_message_time Examples.t0 "X" eq_refl).
Defined.

(** Witness of X12: the message issued to "X" at [t0], submitted a minute
    later. *)
Lemma issued_message_expiry_witness :
  JS.split ":" "X" = ["X"]
  /\ 1000 <= Examples.t0
  /\ 1000 <= Examples.t0 + 60000
  /\ (snd (submitStar (Examples.t0 + 60000) (Examples.t0 + 60000) "X"
             (requestMessageOwnershipVerification Examples.t0 "X")
             (Sample.sign (Examples.challenge "X") "X") "star 1" Examples.genesis_only)
      = Rejected "More than 5 minutes have elapsed"
      <-> (Examples.t0 + 60000) / 1000 - Examples.t0 / 1000 > 300000).
Proof.
  assert (H0 : 1000 <= Examples.t0) by (unfold Examples.t0; lia).
  assert (H1 : 1000 <= Examples.t0 + 60000) by (unfold Examples.t0; lia).
  split; [reflexivity|]. split; [exact H0|]. split; [exact H1|].
  exact (issued_message_expiry Examples.t0 (Examples.t0 + 60000) (Examples.t0 + 60000)
           "X" (Sample.sign (Examples.challenge "X") "X") "star 1"
           Examples.genesis_only eq_refl H0 H1).
Defined.

(** Witness of X15: the first star of "X", then the query for "X". *)
Lemma submitStar_then_getStars_witness :
  decode (encode (StarData "X" (Examples.challenge "X")
                    (Sample.sign (Examples.challenge "X") "X") "star 1"))
  = Some (StarData "X" (Examples.challenge "X")
            (Sample.sign (Examples.challenge "X") "X") "star 1")
  /\ snd (submitStar (Examples.t0 + 60000) (Examples.t0 + 60000) "X"
            (Examples.challenge "X") (Sample.sign (Examples.challenge "X") "X")
            "star 1" Examples.genesis_only)
     = Resolved Examples.first_star_stored
  /\ exists before : list string,
       await_getStarsByWalletAddress Examples.genesis_only "X" = Some before
       /\ await_getStarsByWalletAddress
            (fst (submitStar (Examples.t0 + 60000) (Examples.t0 + 60000) "X"
                    (Examples.challenge "X") (Sample.sign (Examples.challenge "X") "X")
                    "star 1" Examples.genesis_only)) "X"
          = Some (before ++ if String.eqb "X" "X" then ["star 1"] else []).
Proof.
  split; [exact star_payload_decodes|].
  split; [exact first_star_submitted|].
  exact (submitStar_then_getStars (Examples.t0 + 60000) (Examples.t0 + 60000) "X"
           (Examples.challenge "X") (Sample.sign (Examples.challenge "X") "X")
           "star 1" "X" Examples.genesis_only Examples.first_star_stored
           star_payload_decodes first_star_submitted).
Defined.

(** Witness of X17: the chain after the genesis block and three stars. *)
Lemma validateChain_errorLog_after_serial_appends_witness :
  serial Examples.three_stars
  /\ validateChain_errorLog Examples.three_stars
     = map invalid_previous_msg
         (filter (fun block =>
                    negb (strict_eq (Block.previousBlockHash block) (Block.hash block)))
            (tl (chain Examples.three_stars))).
Proof.
  split; [exact three_stars_serial|].
  exact (validateChain_errorLog_after_serial_appends Examples.three_stars three_stars_serial).
Defined.
